(** * civogo: volumes and firewalls

    A shallow embedding of the volume and firewall modules of the civogo
    client (src/volume.go), and the properties of their listing and lookup
    operations.

    Go values are modelled as follows.
    - [string] is a Rocq [string]; a [[]byte] response body is a [string] too.
    - A slice is an optional list: [None] is the nil slice, [Some []] an
      allocated slice of length zero.
    - [int] is a 64-bit signed integer, a [Z] with its wrap-around written out.
    - A function returning [(T, error)] returns a [Result T]: every return
      statement of the source is either [(v, nil)] or [(nil, err)].
    - A method of [*Client] is a state transformer over the requests sent so
      far and the state of the remote service. *)

From Stdlib Require Import String Ascii List ZArith Lia Bool.
Import ListNotations.
Local Open Scope string_scope.
Local Open Scope list_scope.

(** ** Strings *)

Module Strings.

(** [strings.HasPrefix(s, prefix)]. *)
Fixpoint HasPrefix (s prefix : string) : bool :=
  match prefix, s with
  | EmptyString, _ => true
  | String _ _, EmptyString => false
  | String c p, String d t => Ascii.eqb c d && HasPrefix t p
  end.

(** [strings.Contains(s, substr)]: substr occurs at some offset of s. *)
Fixpoint Contains (s substr : string) : bool :=
  HasPrefix s substr ||
  match s with
  | EmptyString => false
  | String _ t => Contains t substr
  end.

End Strings.

(** ** Integers *)

Definition maxInt : Z := 2 ^ 63 - 1.

(** Two's complement wrap-around of Go's 64-bit [int]. *)
Definition wrapInt (z : Z) : Z := (z + 2 ^ 63) mod 2 ^ 64 - 2 ^ 63.

(** ** Slices *)

Definition slice (A : Type) : Type := option (list A).

Definition nilSlice {A : Type} : slice A := None.

(** [make([]T, 0)]. *)
Definition make {A : Type} : slice A := Some [].

(** The elements a [range] loop visits, in order; none for the nil slice. *)
Definition elems {A : Type} (s : slice A) : list A :=
  match s with
  | Some l => l
  | None => []
  end.

(** [append(s, x)]: never nil, also when [s] is. *)
Definition append {A : Type} (s : slice A) (x : A) : slice A :=
  Some (elems s ++ [x]).

(** [len(s)] as a mathematical integer; Go stores it in an [int]. *)
Definition len {A : Type} (s : slice A) : Z := Z.of_nat (length (elems s)).

(** ** Errors *)

(** Modelled from the spec: the error kinds of the lookup failures (section 7),
    declared outside src/ as constants with a [wrap] method. *)
Inductive constError : Type :=
| MultipleMatchesError
| ZeroMatchesError.

Inductive Error : Type :=
| errorString (msg : string)
| wrapError (kind : constError) (cause : Error).

(** [kind.wrap(err)]. *)
Definition wrap (kind : constError) (err : Error) : Error := wrapError kind err.

(** The outcome of a call: [(a, nil)], [(nil, err)], or a run-time panic,
    which unwinds through every caller. *)
Inductive Result (A : Type) : Type :=
| Ok (a : A)
| Fail (err : Error)
| Panic.

Arguments Ok {A} a.
Arguments Fail {A} err.
Arguments Panic {A}.

(** ** Data model *)

(** [CreatedAt] is a [time.Time]; it is carried as the text of the timestamp. *)
Record Volume : Type := {
  Volume_ID : string;
  Volume_Name : string;
  Volume_InstanceID : string;
  Volume_ClusterID : string;
  Volume_NetworkID : string;
  Volume_MountPoint : string;
  Volume_Status : string;
  Volume_VolumeType : string;
  Volume_SizeGigabytes : Z;
  Volume_Bootable : bool;
  Volume_CreatedAt : string
}.

Record Firewall : Type := {
  Firewall_ID : string;
  Firewall_Name : string;
  Firewall_RulesCount : string;
  Firewall_InstancesCount : string;
  Firewall_Region : string
}.

Record FirewallRule : Type := {
  FirewallRule_ID : string;
  FirewallRule_FirewallID : string;
  FirewallRule_Protocol : string;
  FirewallRule_StartPort : string;
  FirewallRule_EndPort : string;
  FirewallRule_Cidr : slice string;
  FirewallRule_Direction : string;
  FirewallRule_Label : string
}.

Record FirewallRuleConfig : Type := {
  FirewallRuleConfig_FirewallID : string;
  FirewallRuleConfig_Protocol : string;
  FirewallRuleConfig_StartPort : string;
  FirewallRuleConfig_EndPort : string;
  FirewallRuleConfig_Cidr : slice string;
  FirewallRuleConfig_Direction : string;
  FirewallRuleConfig_Label : string
}.

(** Modelled from the spec: the cluster types of the Kubernetes collaborator
    (section 4.2), declared outside src/; the code reads [ID] and [Items]. *)
Record KubernetesCluster : Type := {
  KubernetesCluster_ID : string;
  KubernetesCluster_Name : string
}.

Record PaginatedKubernetesClusters : Type := {
  Items : slice KubernetesCluster
}.

(** Modelled from the spec: the simple acknowledgment of section 6 (result
    string, id), declared outside src/. *)
Record SimpleResponse : Type := {
  SimpleResponse_ID : string;
  SimpleResponse_Result : string
}.

(** ** The loops of the source *)

Import Strings.

Fixpoint findString (slice : list string) (val : string) : bool :=
  match slice with
  | [] => false
  | item :: rest => if item =? val then true else findString rest val
  end.

(** The zero value [Volume{}]. *)
Definition zeroVolume : Volume := {|
  Volume_ID := "";
  Volume_Name := "";
  Volume_InstanceID := "";
  Volume_ClusterID := "";
  Volume_NetworkID := "";
  Volume_MountPoint := "";
  Volume_Status := "";
  Volume_VolumeType := "";
  Volume_SizeGigabytes := 0;
  Volume_Bootable := false;
  Volume_CreatedAt := "0001-01-01T00:00:00Z"
|}.

(** The three local variables of [FindVolume]. *)
Record FindVolumeVars : Type := {
  exactMatch : bool;
  partialMatchesCount : Z;
  result : Volume
}.

(** One iteration of the [range] loop of [FindVolume]. *)
Definition FindVolume_body (search : string) (vars : FindVolumeVars)
  (value : Volume) : FindVolumeVars :=
  if (Volume_Name value =? search) || (Volume_ID value =? search) then
    {| exactMatch := true;
       partialMatchesCount := partialMatchesCount vars;
       result := value |}
  else if Contains (Volume_Name value) search
          || Contains (Volume_ID value) search then
    if negb (exactMatch vars) then
      {| exactMatch := exactMatch vars;
         partialMatchesCount := wrapInt (partialMatchesCount vars + 1);
         result := value |}
    else vars
  else vars.

Definition FindVolume_loop (search : string) (volumes : list Volume)
  : FindVolumeVars :=
  fold_left (FindVolume_body search) volumes
    {| exactMatch := false; partialMatchesCount := 0; result := zeroVolume |}.

(** What [FindVolume] returns once the listing is there. *)
Definition FindVolume_resolve (search : string) (volumes : slice Volume)
  : Result Volume :=
  let vars := FindVolume_loop search (elems volumes) in
  if exactMatch vars || (partialMatchesCount vars =? 1)%Z then
    Ok (result vars)
  else if (partialMatchesCount vars >? 1)%Z then
    let err := errorString
      ("unable to find " ++ search ++ " because there were multiple matches") in
    Fail (wrap MultipleMatchesError err)
  else
    let err := errorString ("unable to find " ++ search ++ ", zero matches") in
    Fail (wrap ZeroMatchesError err).

(** The [range] loop of [FindFirewall] from index [i] on, with its early
    return: the remaining elements, the index of the next one and [found]. *)
Fixpoint FindFirewall_loop (search : string) (firewalls : list Firewall)
  (i : Z) (found : Z) : Result Z :=
  match firewalls with
  | [] => Ok found
  | firewall :: rest =>
      if Contains (Firewall_ID firewall) search
         || Contains (Firewall_Name firewall) search then
        if negb (found =? -1)%Z then
          Fail (errorString
            ("unable to find " ++ search
             ++ " because there were multiple matches"))
        else FindFirewall_loop search rest (i + 1) i
      else FindFirewall_loop search rest (i + 1) found
  end.

(** What [FindFirewall] returns once the listing is there; indexing outside
    the slice panics. *)
Definition FindFirewall_resolve (search : string) (firewalls : slice Firewall)
  : Result Firewall :=
  match FindFirewall_loop search (elems firewalls) 0 (-1) with
  | Fail err => Fail err
  | Panic => Panic
  | Ok found =>
      if (found =? -1)%Z then
        Fail (errorString ("unable to find " ++ search ++ ", zero matches"))
      else if (found <? 0)%Z then Panic
      else
        match nth_error (elems firewalls) (Z.to_nat found) with
        | Some firewall => Ok firewall
        | None => Panic
        end
  end.

(** ** Requests and the collaborators outside src/ *)

Inductive Method : Type := GET | POST | PUT | DELETE.

Record Request : Type := {
  method : Method;
  path : string;
  payload : option FirewallRuleConfig
}.

(** What [json.Decoder.Decode] finds in a body when its target is a slice:
    the value null, an array whose elements decode to [items] (in document
    order), or something it rejects with an error. *)
Inductive JsonRead (A : Type) : Type :=
| JsonNull
| JsonArray (items : list A)
| JsonInvalid (err : Error).

Arguments JsonNull {A}.
Arguments JsonArray {A} items.
Arguments JsonInvalid {A} err.

(** [Decode(&target)] on a slice, as encoding/json documents it: null sets
    the slice to nil, an array replaces its contents by the decoded elements
    (an allocated slice, also for an array without elements). *)
Definition Decode {A : Type} (r : JsonRead A) (target : slice A)
  : slice A * option Error :=
  match r with
  | JsonNull => (nilSlice, None)
  | JsonArray items => (Some items, None)
  | JsonInvalid err => (target, Some err)
  end.

(** The client: the requests issued so far and the state of the service. *)
Record Client (W : Type) : Type := {
  sent : list Request;
  remote : W
}.

Arguments sent {W} c.
Arguments remote {W} c.

(** The parts of the repository and of its libraries that src/ calls but does
    not contain: the HTTP round trip, the JSON readers, [decodeError],
    [DecodeSimpleResponse] and the Kubernetes cluster operations. Like the
    functions of src/, the collaborators return a value or an error, never
    a nil pointer without error. *)
Class Backend : Type := {
  World : Type;
  roundTrip : Request -> World -> Result string * World;
  decodeError : Error -> Error;
  readVolumes : string -> JsonRead Volume;
  readFirewalls : string -> JsonRead Firewall;
  readFirewallRule : string -> FirewallRule -> FirewallRule * option Error;
  DecodeSimpleResponse : string -> Result SimpleResponse;
  FindKubernetesCluster :
    string -> Client World -> Result KubernetesCluster * Client World;
  ListKubernetesClusters :
    Client World -> Result PaginatedKubernetesClusters * Client World
}.

(** ** The client monad *)

Definition M {B : Backend} (A : Type) : Type := Client World -> A * Client World.

Definition ret {B : Backend} {A : Type} (a : A) : M A := fun c => (a, c).

Definition bind {B : Backend} {A C : Type} (m : M A) (k : A -> M C) : M C :=
  fun c => let (a, c') := m c in k a c'.

Notation "x <- m ;; k" := (bind m (fun x => k))
  (at level 61, m at next level, right associativity).

Section Operations.

Context {B : Backend}.

(** One request on the wire: it is recorded, and the service answers. *)
Definition send (req : Request) : M (Result string) :=
  fun c =>
    let (resp, w) := roundTrip req (remote c) in
    (resp, {| sent := sent c ++ [req]; remote := w |}).

Definition SendGetRequest (url : string) : M (Result string) :=
  send {| method := GET; path := url; payload := None |}.

Definition SendDeleteRequest (url : string) : M (Result string) :=
  send {| method := DELETE; path := url; payload := None |}.

Definition SendPostRequest (url : string) (r : FirewallRuleConfig)
  : M (Result string) :=
  send {| method := POST; path := url; payload := Some r |}.

(** *** Volumes *)

Definition ListVolumes : M (Result (slice Volume)) :=
  resp <- SendGetRequest "/v2/volumes" ;;
  match resp with
  | Fail err => ret (Fail (decodeError err))
  | Panic => ret Panic
  | Ok resp =>
      let volumes := make in
      match Decode (readVolumes resp) volumes with
      | (_, Some err) => ret (Fail err)
      | (volumes, None) => ret (Ok volumes)
      end
  end.

Definition ListVolumesForCluster (clusterID : string)
  : M (Result (slice Volume)) :=
  cluster <- FindKubernetesCluster clusterID ;;
  match cluster with
  | Fail err => ret (Fail err)
  | Panic => ret Panic
  | Ok cluster =>
      volumes <- ListVolumes ;;
      match volumes with
      | Fail err => ret (Fail (decodeError err))
      | Panic => ret Panic
      | Ok volumes =>
          let vols :=
            fold_left
              (fun vols vol =>
                 if negb (Volume_ClusterID vol =? "") then
                   if KubernetesCluster_ID cluster =? Volume_ClusterID vol
                   then append vols vol
                   else vols
                 else vols)
              (elems volumes) nilSlice in
          ret (Ok vols)
      end
  end.

Definition ListDanglingVolumes : M (Result (slice Volume)) :=
  clusters <- ListKubernetesClusters ;;
  match clusters with
  | Fail err => ret (Fail (decodeError err))
  | Panic => ret Panic
  | Ok clusters =>
      let clusterIDs :=
        fold_left
          (fun clusterIDs cluster =>
             append clusterIDs (KubernetesCluster_ID cluster))
          (elems (Items clusters)) nilSlice in
      volumes <- ListVolumes ;;
      match volumes with
      | Fail err => ret (Fail (decodeError err))
      | Panic => ret Panic
      | Ok volumes =>
          let danglingVolumes :=
            fold_left
              (fun danglingVolumes volume =>
                 if negb (Volume_ClusterID volume =? "") then
                   if negb (findString (elems clusterIDs)
                              (Volume_ClusterID volume))
                   then append danglingVolumes volume
                   else danglingVolumes
                 else danglingVolumes)
              (elems volumes) make in
          ret (Ok danglingVolumes)
      end
  end.


Definition FindVolume (search : string) : M (Result Volume) :=
  volumes <- ListVolumes ;;
  match volumes with
  | Fail err => ret (Fail (decodeError err))
  | Panic => ret Panic
  | Ok volumes => ret (FindVolume_resolve search volumes)
  end.

Definition DeleteVolume (id : string) : M (Result SimpleResponse) :=
  resp <- SendDeleteRequest ("/v2/volumes/" ++ id) ;;
  match resp with
  | Fail err => ret (Fail (decodeError err))
  | Panic => ret Panic
  | Ok resp => ret (DecodeSimpleResponse resp)
  end.

Definition DeleteVolumeAndAllSnapshot (volumeID : string)
  : M (Result SimpleResponse) :=
  resp <- SendDeleteRequest
            ("/v2/volumes/" ++ volumeID ++ "?delete_snapshot=true") ;;
  match resp with
  | Fail err => ret (Fail (decodeError err))
  | Panic => ret Panic
  | Ok resp => ret (DecodeSimpleResponse resp)
  end.

(** *** Firewalls *)

Definition ListFirewalls : M (Result (slice Firewall)) :=
  resp <- SendGetRequest "/v2/firewalls" ;;
  match resp with
  | Fail err => ret (Fail err)
  | Panic => ret Panic
  | Ok resp =>
      let firewall := make in
      match Decode (readFirewalls resp) firewall with
      | (_, Some err) => ret (Fail err)
      | (firewall, None) => ret (Ok firewall)
      end
  end.

Definition FindFirewall (search : string) : M (Result Firewall) :=
  firewalls <- ListFirewalls ;;
  match firewalls with
  | Fail err => ret (Fail err)
  | Panic => ret Panic
  | Ok firewalls => ret (FindFirewall_resolve search firewalls)
  end.

(** The zero value [FirewallRule{}]. *)
Definition zeroFirewallRule : FirewallRule := {|
  FirewallRule_ID := "";
  FirewallRule_FirewallID := "";
  FirewallRule_Protocol := "";
  FirewallRule_StartPort := "";
  FirewallRule_EndPort := "";
  FirewallRule_Cidr := nilSlice;
  FirewallRule_Direction := "";
  FirewallRule_Label := ""
|}.

Definition NewFirewallRule (r : FirewallRuleConfig) : M (Result FirewallRule) :=
  if (Z.of_nat (String.length (FirewallRuleConfig_FirewallID r)) =? 0)%Z then
    ret (Fail (errorString "the firewall ID is empty"))
  else
    resp <- SendPostRequest
              ("/v2/firewalls/" ++ FirewallRuleConfig_FirewallID r ++ "/rules")
              r ;;
    match resp with
    | Fail err => ret (Fail err)
    | Panic => ret Panic
    | Ok resp =>
        let rule := zeroFirewallRule in
        match readFirewallRule resp rule with
        | (_, Some err) => ret (Fail err)
        | (rule, None) => ret (Ok rule)
        end
    end.

End Operations.

(** ** Further firewall operations *)

(** The JSON reader of the rule listing, outside src/ like the readers of
    [Backend]. *)
Class RuleReader : Type := {
  readFirewallRules : string -> JsonRead FirewallRule
}.

Section FirewallOperations.

Context {B : Backend}.

Definition DeleteFirewall (id : string) : M (Result SimpleResponse) :=
  resp <- SendDeleteRequest ("/v2/firewalls/" ++ id) ;;
  match resp with
  | Fail err => ret (Fail err)
  | Panic => ret Panic
  | Ok resp => ret (DecodeSimpleResponse resp)
  end.

Definition DeleteFirewallRule (id id_rule : string)
  : M (Result SimpleResponse) :=
  resp <- SendDeleteRequest
            ("/v2/firewalls/" ++ id ++ "/rules/" ++ id_rule) ;;
  match resp with
  | Fail err => ret (Fail err)
  | Panic => ret Panic
  | Ok resp => ret (DecodeSimpleResponse resp)
  end.

Definition ListFirewallRules {R : RuleReader} (id : string)
  : M (Result (slice FirewallRule)) :=
  resp <- SendGetRequest ("/v2/firewalls/" ++ id ++ "/rules") ;;
  match resp with
  | Fail err => ret (Fail err)
  | Panic => ret Panic
  | Ok resp =>
      let firewallRule := make in
      match Decode (readFirewallRules resp) firewallRule with
      | (_, Some err) => ret (Fail err)
      | (firewallRule, None) => ret (Ok firewallRule)
      end
  end.

End FirewallOperations.

(** ** Services for the examples *)

Definition acknowledged : SimpleResponse :=
  {| SimpleResponse_ID := ""; SimpleResponse_Result := "success" |}.

(** A service that answers every request and holds fixed listings: the fake
    transport of the design notes. Its cluster lookup is by exact id. *)
Definition stub (volumes : JsonRead Volume) (firewalls : JsonRead Firewall)
  (clusters : list KubernetesCluster) : Backend := {|
  World := unit;
  roundTrip := fun _ w => (Ok "{}", w);
  decodeError := fun err => err;
  readVolumes := fun _ => volumes;
  readFirewalls := fun _ => firewalls;
  readFirewallRule := fun _ rule => (rule, None);
  DecodeSimpleResponse := fun _ => Ok acknowledged;
  FindKubernetesCluster := fun search c =>
    match find (fun k => KubernetesCluster_ID k =? search) clusters with
    | Some k => (Ok k, c)
    | None => (Fail (wrap ZeroMatchesError (errorString search)), c)
    end;
  ListKubernetesClusters := fun c => (Ok {| Items := Some clusters |}, c)
|}.

(** A service whose every response body is the JSON text null. *)
Definition nullService : Backend := {|
  World := unit;
  roundTrip := fun _ w => (Ok "null", w);
  decodeError := fun err => err;
  readVolumes := fun body =>
    if body =? "null" then JsonNull
    else JsonInvalid (errorString "unexpected document");
  readFirewalls := fun body =>
    if body =? "null" then JsonNull
    else JsonInvalid (errorString "unexpected document");
  readFirewallRule := fun _ rule => (rule, None);
  DecodeSimpleResponse := fun _ => Ok acknowledged;
  FindKubernetesCluster := fun search c =>
    (Fail (wrap ZeroMatchesError (errorString search)), c);
  ListKubernetesClusters := fun c => (Ok {| Items := nilSlice |}, c)
|}.

(** A client that has not sent anything yet. *)
Definition fresh : Client unit := {| sent := []; remote := tt |}.

Definition volume (id name clusterID : string) : Volume := {|
  Volume_ID := id;
  Volume_Name := name;
  Volume_InstanceID := "";
  Volume_ClusterID := clusterID;
  Volume_NetworkID := "";
  Volume_MountPoint := "";
  Volume_Status := "available";
  Volume_VolumeType := "";
  Volume_SizeGigabytes := 10;
  Volume_Bootable := false;
  Volume_CreatedAt := "2024-01-01T00:00:00Z"
|}.

Definition firewall (id name : string) : Firewall := {|
  Firewall_ID := id;
  Firewall_Name := name;
  Firewall_RulesCount := "0";
  Firewall_InstancesCount := "0";
  Firewall_Region := "lon1"
|}.

Definition cluster (id name : string) : KubernetesCluster :=
  {| KubernetesCluster_ID := id; KubernetesCluster_Name := name |}.

(** The listings of the examples. *)
Definition demoVolumes : list Volume :=
  [ volume "v1" "data" "A";
    volume "v2" "data-backup" "C";
    volume "v3" "logs" "";
    volume "v4" "data" "" ].

Definition demoFirewalls : list Firewall :=
  [ firewall "f1" "web"; firewall "f2" "web-2"; firewall "f3" "db" ].

Definition demoClusters : list KubernetesCluster :=
  [ cluster "A" "alpha"; cluster "B" "beta" ].

Definition demo : Backend :=
  stub (JsonArray demoVolumes) (JsonArray demoFirewalls) demoClusters.

(** The client of [demo] after it has listed the volumes. *)
Definition listedVolumes : Client unit :=
  {| sent := [ {| method := GET; path := "/v2/volumes"; payload := None |} ];
     remote := tt |}.

(** The client of [demo] after it has listed the firewalls. *)
Definition listedFirewalls : Client unit :=
  {| sent := [ {| method := GET; path := "/v2/firewalls"; payload := None |} ];
     remote := tt |}.

(** A service of an account without volumes and without firewalls: every
    body is the JSON text of the empty array. Its readers know that text and
    the text null. *)
Definition bareService : Backend := {|
  World := unit;
  roundTrip := fun _ w => (Ok "[]", w);
  decodeError := fun err => err;
  readVolumes := fun body =>
    if body =? "[]" then JsonArray []
    else if body =? "null" then JsonNull
    else JsonInvalid (errorString "unexpected document");
  readFirewalls := fun body =>
    if body =? "[]" then JsonArray []
    else if body =? "null" then JsonNull
    else JsonInvalid (errorString "unexpected document");
  readFirewallRule := fun _ rule => (rule, None);
  DecodeSimpleResponse := fun _ => Ok acknowledged;
  FindKubernetesCluster := fun search c =>
    match find (fun k => KubernetesCluster_ID k =? search) demoClusters with
    | Some k => (Ok k, c)
    | None => (Fail (wrap ZeroMatchesError (errorString search)), c)
    end;
  ListKubernetesClusters := fun c => (Ok {| Items := Some demoClusters |}, c)
|}.

(** A service with one volume and one firewall. *)
Definition soloService : Backend :=
  stub (JsonArray [volume "v1" "data" "A"]) (JsonArray [firewall "f1" "web"])
    demoClusters.

Definition demoRule : FirewallRuleConfig := {|
  FirewallRuleConfig_FirewallID := "";
  FirewallRuleConfig_Protocol := "tcp";
  FirewallRuleConfig_StartPort := "443";
  FirewallRuleConfig_EndPort := "443";
  FirewallRuleConfig_Cidr := Some ["0.0.0.0/0"];
  FirewallRuleConfig_Direction := "ingress";
  FirewallRuleConfig_Label := ""
|}.

Definition unreachable : Error := errorString "connection refused".

Definition garbled : Error := errorString "invalid character '<'".

(** A service with one answer to every request, one reading of every body
    and one outcome of the cluster listing; its [decodeError] marks the
    errors it translates, and its cluster lookup always resolves. *)
Definition service (answer : Result string) (volumes : JsonRead Volume)
  (firewalls : JsonRead Firewall)
  (clusters : Result PaginatedKubernetesClusters) : Backend := {|
  World := unit;
  roundTrip := fun _ w => (answer, w);
  decodeError := fun err =>
    match err with
    | errorString msg => errorString ("decoded: " ++ msg)
    | wrapError kind cause => wrapError kind cause
    end;
  readVolumes := fun _ => volumes;
  readFirewalls := fun _ => firewalls;
  readFirewallRule := fun _ rule => (rule, None);
  DecodeSimpleResponse := fun _ => Ok acknowledged;
  FindKubernetesCluster := fun search c => (Ok (cluster search "alpha"), c);
  ListKubernetesClusters := fun c => (clusters, c)
|}.

(** A service that cannot be reached. *)
Definition downService : Backend :=
  service (Fail unreachable) (JsonInvalid garbled) (JsonInvalid garbled)
    (Ok {| Items := Some demoClusters |}).

(** A service that answers with something that is not JSON. *)
Definition garbledService : Backend :=
  service (Ok "<html>") (JsonInvalid garbled) (JsonInvalid garbled)
    (Ok {| Items := Some demoClusters |}).

(** A service whose cluster listing fails. *)
Definition clusterlessService : Backend :=
  service (Ok "[]") (JsonArray []) (JsonArray []) (Fail unreachable).

(** ** Predicates of the statements *)

(** The two messages of the lookups, built by [fmt.Errorf]. *)
Definition zeroMatches (search : string) : Error :=
  errorString ("unable to find " ++ search ++ ", zero matches").

Definition multipleMatches (search : string) : Error :=
  errorString
    ("unable to find " ++ search ++ " because there were multiple matches").

(** The id or the name is the search string. *)
Definition volumeIs (search : string) (v : Volume) : Prop :=
  Volume_Name v = search \/ Volume_ID v = search.

(** The id or the name contains the search string. *)
Definition volumeContains (search : string) (v : Volume) : bool :=
  Contains (Volume_Name v) search || Contains (Volume_ID v) search.

Definition firewallContains (search : string) (f : Firewall) : bool :=
  Contains (Firewall_ID f) search || Contains (Firewall_Name f) search.

(** A volume that names a cluster which is not among [clusters]. *)
Definition dangling (clusters : list KubernetesCluster) (v : Volume) : bool :=
  negb (Volume_ClusterID v =? "")
  && negb (existsb (fun k => KubernetesCluster_ID k =? Volume_ClusterID v)
             clusters).

(** A volume that names the cluster [k]. *)
Definition belongsTo (k : KubernetesCluster) (v : Volume) : bool :=
  negb (Volume_ClusterID v =? "")
  && (KubernetesCluster_ID k =? Volume_ClusterID v).

(** * Properties *)

(** ** Strings *)

Lemma HasPrefix_app (s t : string) : HasPrefix (s ++ t)%string s = true.
Proof.
  induction s as [|a s IH]; simpl.
  - destruct t; reflexivity.
  - rewrite Ascii.eqb_refl. exact IH.
Qed.

Lemma HasPrefix_inv (s p : string) :
  HasPrefix s p = true -> exists t, s = (p ++ t)%string.
Proof.
  revert s. induction p as [|c p IH]; intros s H.
  - exists s. reflexivity.
  - destruct s as [|d s]; simpl in H; [discriminate|].
    apply andb_true_iff in H. destruct H as [Hc Hp].
    apply Ascii.eqb_eq in Hc. subst d.
    destruct (IH _ Hp) as [t ->]. exists t. reflexivity.
Qed.

(** [Contains] decides the substring relation. *)
Lemma Contains_spec (s substr : string) :
  Contains s substr = true <->
  exists pre post, s = (pre ++ substr ++ post)%string.
Proof.
  split.
  - induction s as [|a s IH]; cbn [Contains]; intros H.
    + rewrite orb_false_r in H. apply HasPrefix_inv in H.
      destruct H as [t H]. exists "", t. exact H.
    + apply orb_true_iff in H. destruct H as [H|H].
      * apply HasPrefix_inv in H. destruct H as [t H]. exists "", t. exact H.
      * destruct (IH H) as (pre & post & ->).
        exists (String a pre), post. reflexivity.
  - intros (pre & post & ->). induction pre as [|a pre IH].
    + change (Contains (substr ++ post) substr = true).
      pose proof (HasPrefix_app substr post) as P.
      destruct (substr ++ post)%string; cbn [Contains]; rewrite P; reflexivity.
    + change (Contains (String a (pre ++ substr ++ post)) substr = true).
      cbn [Contains]. rewrite IH. apply orb_true_r.
Qed.

Lemma Contains_empty (s : string) : Contains s "" = true.
Proof. destruct s; reflexivity. Qed.

Lemma Contains_refl (s : string) : Contains s s = true.
Proof.
  apply Contains_spec. exists "", "". simpl.
  induction s as [|a s IH]; simpl; [reflexivity | now rewrite <- IH].
Qed.

Lemma length_app (s t : string) :
  String.length (s ++ t)%string = String.length s + String.length t.
Proof. induction s as [|a s IH]; simpl; [reflexivity | now rewrite IH]. Qed.

(** A path with a query string behind it is another path. *)
Lemma app_suffix_neq (p s t : string) :
  t <> "" -> (p ++ s ++ t)%string <> (p ++ s)%string.
Proof.
  intros Ht E. apply (f_equal String.length) in E.
  rewrite !length_app in E. destruct t; [contradiction | simpl in E; lia].
Qed.

(** ** Integers and lists *)

Lemma wrapInt_small (z : Z) : (- 2 ^ 63 <= z <= maxInt)%Z -> wrapInt z = z.
Proof.
  unfold wrapInt, maxInt. intros H.
  rewrite Z.mod_small; lia.
Qed.

(** The first element a filter keeps splits the list around it. *)
Lemma filter_cons_split {A : Type} (p : A -> bool) (l : list A) x xs :
  filter p l = x :: xs ->
  exists l1 l2,
    l = l1 ++ x :: l2 /\ filter p l1 = [] /\ p x = true /\ filter p l2 = xs.
Proof.
  induction l as [|a l IH]; simpl; intros H; [discriminate|].
  destruct (p a) eqn:Pa.
  - injection H as <- <-. exists [], l. auto.
  - destruct (IH H) as (l1 & l2 & -> & H1 & Px & H2).
    exists (a :: l1), l2. simpl. rewrite Pa. auto.
Qed.

Lemma filter_nil_iff {A : Type} (p : A -> bool) (l : list A) :
  filter p l = [] <-> forall x, In x l -> p x = false.
Proof.
  induction l as [|a l IH]; simpl.
  - split; [intros _ x [] | reflexivity].
  - destruct (p a) eqn:Pa; split.
    + discriminate.
    + intros H. specialize (H a (or_introl eq_refl)). congruence.
    + intros H x [<-|Hx]; [assumption | now apply IH].
    + intros H. apply IH. intros x Hx. apply H. now right.
Qed.

Lemma last_cons_default {A : Type} (x : A) (l : list A) (d d' : A) :
  last (x :: l) d = last (x :: l) d'.
Proof.
  revert x. induction l as [|y l IH]; intros x; [reflexivity|].
  change (last (y :: l) d = last (y :: l) d'). apply IH.
Qed.

(** A loop that appends the selected elements builds the filtered list
    behind what the slice held, and leaves a slice it never appends to as
    it was (nil stays nil). *)
Lemma fold_left_append {A : Type} (p : A -> bool)
  (body : slice A -> A -> slice A)
  (Hbody : forall s x, body s x = if p x then append s x else s)
  (l : list A) (s : slice A) :
  fold_left body l s =
    match filter p l with
    | [] => s
    | kept => Some (elems s ++ kept)
    end.
Proof.
  revert s. induction l as [|a l IH]; intros s; simpl; [reflexivity|].
  rewrite IH, Hbody. destruct (p a); [|reflexivity].
  unfold append. simpl elems.
  destruct (filter p l); [reflexivity|].
  now rewrite <- app_assoc.
Qed.

Lemma findString_existsb (ids : list string) (val : string) :
  findString ids val = existsb (fun item => item =? val) ids.
Proof.
  induction ids as [|item ids IH]; simpl; [reflexivity|].
  rewrite IH. destruct (item =? val); reflexivity.
Qed.

Lemma findString_In (ids : list string) (val : string) :
  findString ids val = true <-> In val ids.
Proof.
  rewrite findString_existsb, existsb_exists. split.
  - intros (x & Hx & E). apply String.eqb_eq in E. now subst.
  - intros H. exists val. split; [assumption | apply String.eqb_refl].
Qed.

(** ** The scan of [FindVolume] *)

Lemma exact_test_true (search : string) (v : Volume) :
  (Volume_Name v =? search) || (Volume_ID v =? search) = true <->
  volumeIs search v.
Proof.
  unfold volumeIs. rewrite orb_true_iff, !String.eqb_eq. reflexivity.
Qed.

Lemma exact_test_false (search : string) (v : Volume) :
  ~ volumeIs search v ->
  (Volume_Name v =? search) || (Volume_ID v =? search) = false.
Proof.
  intros H. apply not_true_is_false. now rewrite exact_test_true.
Qed.

(** An exact match contains the search string too. *)
Lemma volumeIs_Contains (search : string) (v : Volume) :
  volumeIs search v -> volumeContains search v = true.
Proof.
  unfold volumeContains. intros [<-|<-]; rewrite Contains_refl;
    [reflexivity | apply orb_true_r].
Qed.

(** Once an exact match is held, volumes that are not exact matches leave the
    three variables alone. *)
Lemma FindVolume_body_held (search : string) (l : list Volume) vars :
  exactMatch vars = true ->
  (forall w, In w l -> ~ volumeIs search w) ->
  fold_left (FindVolume_body search) l vars = vars.
Proof.
  revert vars. induction l as [|w l IH]; intros vars He Hl; simpl;
    [reflexivity|].
  assert (FindVolume_body search vars w = vars) as ->.
  { unfold FindVolume_body.
    rewrite exact_test_false by (apply Hl; now left).
    rewrite He. simpl. destruct (_ || _); reflexivity. }
  apply IH; [assumption|]. intros x Hx. apply Hl. now right.
Qed.

(** The scan ends holding the last exact match. *)
Lemma FindVolume_loop_exact (search : string) before v after :
  volumeIs search v ->
  (forall w, In w after -> ~ volumeIs search w) ->
  let vars := FindVolume_loop search (before ++ v :: after) in
  exactMatch vars = true /\ result vars = v.
Proof.
  intros Hv Hafter. unfold FindVolume_loop.
  rewrite fold_left_app. simpl fold_left.
  set (vars0 := fold_left _ before _).
  assert (FindVolume_body search vars0 v =
          {| exactMatch := true;
             partialMatchesCount := partialMatchesCount vars0;
             result := v |}) as ->.
  { unfold FindVolume_body.
    now rewrite (proj2 (exact_test_true search v) Hv). }
  rewrite FindVolume_body_held by (simpl; auto). simpl. auto.
Qed.

(** Without exact matches the scan counts the volumes that contain the
    search string and holds the last of them. *)
Lemma FindVolume_body_partial (search : string) (l : list Volume) vars :
  exactMatch vars = false ->
  (forall w, In w l -> ~ volumeIs search w) ->
  (0 <= partialMatchesCount vars)%Z ->
  (partialMatchesCount vars + Z.of_nat (length l) <= maxInt)%Z ->
  fold_left (FindVolume_body search) l vars =
    {| exactMatch := false;
       partialMatchesCount :=
         partialMatchesCount vars
         + Z.of_nat (length (filter (volumeContains search) l));
       result := last (filter (volumeContains search) l) (result vars) |}.
Proof.
  revert vars. induction l as [|w l IH]; intros vars He Hl H0 Hmax.
  - simpl. rewrite Z.add_0_r. destruct vars; simpl in *. now subst.
  - cbn [fold_left filter]. cbn [length] in Hmax.
    unfold FindVolume_body at 2.
    rewrite exact_test_false by (apply Hl; now left).
    fold (volumeContains search w). rewrite He. cbn [negb].
    assert (forall x, In x l -> ~ volumeIs search x) as Hl'
      by (intros x Hx; apply Hl; now right).
    destruct (volumeContains search w) eqn:Hw.
    + rewrite IH; cbn [exactMatch partialMatchesCount result]; auto.
      * rewrite wrapInt_small by (unfold maxInt in *; lia).
        f_equal; [cbn [length]; lia|].
        destruct (filter (volumeContains search) l) eqn:F;
          [reflexivity|].
        change (last (v :: l0) w = last (v :: l0) (result vars)).
        apply last_cons_default.
      * rewrite wrapInt_small by (unfold maxInt in *; lia). lia.
      * rewrite wrapInt_small by (unfold maxInt in *; lia). lia.
    + rewrite IH; auto. lia.
Qed.

Lemma FindVolume_resolve_exact (search : string) (volumes : slice Volume)
  before v after :
  elems volumes = before ++ v :: after ->
  volumeIs search v ->
  (forall w, In w after -> ~ volumeIs search w) ->
  FindVolume_resolve search volumes = Ok v.
Proof.
  intros E Pv Hafter. unfold FindVolume_resolve. rewrite E.
  destruct (FindVolume_loop_exact search before v after Pv Hafter)
    as [-> ->].
  reflexivity.
Qed.

Lemma FindVolume_resolve_partial (search : string) (volumes : slice Volume) :
  (len volumes <= maxInt)%Z ->
  (forall w, In w (elems volumes) -> ~ volumeIs search w) ->
  FindVolume_resolve search volumes =
    match filter (volumeContains search) (elems volumes) with
    | [] => Fail (wrap ZeroMatchesError (zeroMatches search))
    | [v] => Ok v
    | _ :: _ :: _ => Fail (wrap MultipleMatchesError (multipleMatches search))
    end.
Proof.
  intros Hlen Hnone.
  unfold FindVolume_resolve, FindVolume_loop.
  rewrite FindVolume_body_partial;
    [ | reflexivity | assumption | simpl; lia
      | simpl; unfold len in Hlen; lia ].
  cbn [exactMatch partialMatchesCount result orb].
  destruct (filter (volumeContains search) (elems volumes)) as [|v [|v' hits]].
  - reflexivity.
  - reflexivity.
  - cbn [length].
    replace (_ =? 1)%Z with false by (symmetry; apply Z.eqb_neq; lia).
    replace (_ >? 1)%Z with true by (symmetry; apply Z.gtb_lt; lia).
    reflexivity.
Qed.

Lemma last_true_split {A : Type} (p : A -> bool) (l : list A) :
  (exists u, In u l /\ p u = true) ->
  exists before v after,
    l = before ++ v :: after /\ p v = true /\
    forall w, In w after -> p w = false.
Proof.
  induction l as [|a l IH]; intros (u & Hu & Pu); [destruct Hu|].
  destruct (existsb p l) eqn:E.
  - apply existsb_exists in E. destruct (IH E) as (b & v & r & -> & Pv & Hr).
    exists (a :: b), v, r. auto.
  - assert (forall w, In w l -> p w = false) as Hl.
    { intros w Hw. apply not_true_is_false. intros Pw.
      assert (existsb p l = true) by (apply existsb_exists; eauto).
      congruence. }
    destruct Hu as [->|Hu]; [|rewrite (Hl u Hu) in Pu; discriminate].
    exists [], u, l. auto.
Qed.

Section VolumeLookup.

Context {B : Backend}.

(** [FindVolume] resolves the search on whatever listing it obtained. *)
Lemma FindVolume_listed (search : string) (c c' : Client World) volumes :
  ListVolumes c = (Ok volumes, c') ->
  FindVolume search c = (FindVolume_resolve search volumes, c').
Proof.
  intros H. unfold FindVolume, bind. rewrite H. reflexivity.
Qed.

(** C1. Whenever the listing holds a volume whose id or name is the search
    string, [FindVolume] returns such a volume, namely the last one of the
    listing, whatever other volumes merely contain the search string. *)
Theorem FindVolume_exact_priority (search : string) (c c' : Client World)
  (volumes : slice Volume) :
  ListVolumes c = (Ok volumes, c') ->
  (exists u, In u (elems volumes) /\ volumeIs search u) ->
  exists before v after,
    elems volumes = before ++ v :: after /\
    volumeIs search v /\
    (forall w, In w after -> ~ volumeIs search w) /\
    FindVolume search c = (Ok v, c').
Proof.
  intros Hlist (u & Hu & Eu).
  destruct (last_true_split
              (fun w => (Volume_Name w =? search) || (Volume_ID w =? search))
              (elems volumes)) as (before & v & after & E & Pv & Hafter).
  { exists u. split; [assumption | now apply exact_test_true]. }
  apply exact_test_true in Pv.
  assert (forall w, In w after -> ~ volumeIs search w) as Hafter'.
  { intros w Hw Ew. apply exact_test_true in Ew.
    rewrite (Hafter w Hw) in Ew. discriminate. }
  exists before, v, after. repeat split; try assumption.
  rewrite (FindVolume_listed _ _ _ _ Hlist).
  now rewrite (FindVolume_resolve_exact search volumes before v after).
Qed.

(** C2. On a listing without exact match, [FindVolume] returns the volume
    that contains the search string when there is exactly one, fails with
    [MultipleMatchesError] when there are several and with
    [ZeroMatchesError] when there is none. The listing is a Go slice: its
    length fits an [int]. *)
Theorem FindVolume_partial_matches (search : string) (c c' : Client World)
  (volumes : slice Volume) :
  ListVolumes c = (Ok volumes, c') ->
  (len volumes <= maxInt)%Z ->
  (forall w, In w (elems volumes) -> ~ volumeIs search w) ->
  FindVolume search c =
    (match filter (volumeContains search) (elems volumes) with
     | [] => Fail (wrap ZeroMatchesError (zeroMatches search))
     | [v] => Ok v
     | _ :: _ :: _ => Fail (wrap MultipleMatchesError (multipleMatches search))
     end, c').
Proof.
  intros Hlist Hlen Hnone.
  rewrite (FindVolume_listed _ _ _ _ Hlist).
  now rewrite FindVolume_resolve_partial.
Qed.

End VolumeLookup.

Lemma FindVolume_exact_priority_witness :
  @ListVolumes demo fresh = (Ok (Some demoVolumes), listedVolumes) /\
  (exists u, In u demoVolumes /\ volumeIs "data" u) /\
  exists before v after,
    demoVolumes = before ++ v :: after /\
    volumeIs "data" v /\
    (forall w, In w after -> ~ volumeIs "data" w) /\
    @FindVolume demo "data" fresh = (Ok v, listedVolumes).
Proof.
  assert (exists u, In u demoVolumes /\ volumeIs "data" u) as H.
  { exists (volume "v1" "data" "A"). split; [now left | now left]. }
  split; [reflexivity|]. split; [exact H|].
  exact (@FindVolume_exact_priority demo "data" fresh listedVolumes
           (Some demoVolumes) eq_refl H).
Defined.

Lemma FindVolume_partial_matches_witness :
  @ListVolumes demo fresh = (Ok (Some demoVolumes), listedVolumes) /\
  (len (Some demoVolumes) <= maxInt)%Z /\
  (forall w, In w demoVolumes -> ~ volumeIs "log" w) /\
  @FindVolume demo "log" fresh = (Ok (volume "v3" "logs" ""), listedVolumes).
Proof.
  assert (forall w, In w demoVolumes -> ~ volumeIs "log" w) as H.
  { intros w Hw [E|E]; simpl in Hw;
      repeat (destruct Hw as [<-|Hw]; [discriminate E|]); destruct Hw. }
  assert (len (Some demoVolumes) <= maxInt)%Z as L by (vm_compute; discriminate).
  split; [reflexivity|]. split; [exact L|]. split; [exact H|].
  exact (@FindVolume_partial_matches demo "log" fresh listedVolumes
           (Some demoVolumes) eq_refl L H).
Defined.

(** ** The scan of [FindFirewall] *)

Section FirewallScan.

Variable search : string.

(** Firewalls that do not contain the search string are skipped. *)
Lemma FindFirewall_loop_skip (l : list Firewall) (i found : Z) :
  filter (firewallContains search) l = [] ->
  FindFirewall_loop search l i found = Ok found.
Proof.
  revert i. induction l as [|f l IH]; intros i H; [reflexivity|].
  simpl in H. cbn [FindFirewall_loop]. fold (firewallContains search f).
  destruct (firewallContains search f); [discriminate|]. now apply IH.
Qed.

(** With a hit already recorded, the next hit returns the error, whatever
    follows it in the listing. *)
Lemma FindFirewall_loop_second (l : list Firewall) g rest (i found : Z) :
  found <> (-1)%Z ->
  filter (firewallContains search) l = [] ->
  firewallContains search g = true ->
  FindFirewall_loop search (l ++ g :: rest) i found =
    Fail (multipleMatches search).
Proof.
  intros Hf. revert i. induction l as [|f l IH]; intros i H Hg.
  - cbn [app FindFirewall_loop]. fold (firewallContains search g).
    rewrite Hg. apply Z.eqb_neq in Hf. now rewrite Hf.
  - simpl in H. cbn [app FindFirewall_loop].
    fold (firewallContains search f).
    destruct (firewallContains search f); [discriminate|]. now apply IH.
Qed.

(** With no hit recorded, the first hit records its index. *)
Lemma FindFirewall_loop_first (l : list Firewall) f rest (i : Z) :
  filter (firewallContains search) l = [] ->
  firewallContains search f = true ->
  FindFirewall_loop search (l ++ f :: rest) i (-1) =
    FindFirewall_loop search rest
      (i + Z.of_nat (length l) + 1) (i + Z.of_nat (length l)).
Proof.
  revert i. induction l as [|a l IH]; intros i H Hf.
  - cbn [app FindFirewall_loop length]. fold (firewallContains search f).
    rewrite Hf. cbn [Z.eqb negb Z.of_nat]. now rewrite Z.add_0_r.
  - simpl in H. cbn [app FindFirewall_loop].
    fold (firewallContains search a).
    destruct (firewallContains search a); [discriminate|].
    rewrite IH by assumption. cbn [length]. f_equal; lia.
Qed.

Lemma FindFirewall_resolve_hits (firewalls : slice Firewall) :
  FindFirewall_resolve search firewalls =
    match filter (firewallContains search) (elems firewalls) with
    | [] => Fail (zeroMatches search)
    | [f] => Ok f
    | _ :: _ :: _ => Fail (multipleMatches search)
    end.
Proof.
  unfold FindFirewall_resolve.
  destruct (filter (firewallContains search) (elems firewalls))
    as [|f hits] eqn:F.
  - now rewrite FindFirewall_loop_skip.
  - destruct (filter_cons_split _ _ _ _ F) as (l1 & l2 & -> & H1 & Hf & H2).
    rewrite FindFirewall_loop_first by assumption.
    destruct hits as [|g hits].
    + rewrite FindFirewall_loop_skip by assumption.
      replace (_ =? -1)%Z with false by (symmetry; apply Z.eqb_neq; lia).
      replace (_ <? 0)%Z with false by (symmetry; apply Z.ltb_ge; lia).
      rewrite Z.add_0_l, Nat2Z.id, nth_error_app2, Nat.sub_diag by lia.
      reflexivity.
    + destruct (filter_cons_split _ _ _ _ H2)
        as (l3 & l4 & -> & H3 & Hg & _).
      rewrite FindFirewall_loop_second by (assumption || lia).
      reflexivity.
Qed.

End FirewallScan.

(** An exact match is a hit like any other. *)
Lemma firewallIs_Contains (search : string) (f : Firewall) :
  Firewall_ID f = search \/ Firewall_Name f = search ->
  firewallContains search f = true.
Proof.
  unfold firewallContains. intros [<-|<-]; rewrite Contains_refl;
    [reflexivity | apply orb_true_r].
Qed.

Section FirewallLookup.

Context {B : Backend}.

Lemma FindFirewall_listed (search : string) (c c' : Client World) firewalls :
  ListFirewalls c = (Ok firewalls, c') ->
  FindFirewall search c = (FindFirewall_resolve search firewalls, c').
Proof.
  intros H. unfold FindFirewall, bind. rewrite H. reflexivity.
Qed.

(** C3. [FindFirewall] counts every firewall whose id or name contains the
    search string, exact matches included: with two or more of them it
    fails with the multiple-matches error, with one it returns it, with
    none it fails with the zero-matches error. The error is returned at the
    second hit: nothing that follows it in the listing changes the outcome
    of the scan. *)
Theorem FindFirewall_any_second_hit (search : string) (c c' : Client World)
  (firewalls : slice Firewall) :
  ListFirewalls c = (Ok firewalls, c') ->
  FindFirewall search c =
    (match filter (firewallContains search) (elems firewalls) with
     | [] => Fail (zeroMatches search)
     | [f] => Ok f
     | _ :: _ :: _ => Fail (multipleMatches search)
     end, c')
  /\ (forall f, Firewall_ID f = search \/ Firewall_Name f = search ->
                firewallContains search f = true)
  /\ (forall scanned g rest,
        elems firewalls = scanned ++ g :: rest ->
        length (filter (firewallContains search) scanned) = 1 ->
        firewallContains search g = true ->
        forall rest',
          FindFirewall_loop search (scanned ++ g :: rest') 0 (-1) =
            Fail (multipleMatches search)).
Proof.
  intros Hlist. split; [|split].
  - rewrite (FindFirewall_listed _ _ _ _ Hlist).
    now rewrite FindFirewall_resolve_hits.
  - apply firewallIs_Contains.
  - intros scanned g rest _ Hone Hg rest'.
    destruct (filter (firewallContains search) scanned) as [|f [|? ?]] eqn:F;
      try discriminate.
    destruct (filter_cons_split _ _ _ _ F) as (l1 & l2 & -> & H1 & Hf & H2).
    rewrite <- app_assoc. cbn [app].
    rewrite FindFirewall_loop_first by assumption.
    apply FindFirewall_loop_second; (assumption || lia).
Qed.

End FirewallLookup.

Lemma FindFirewall_any_second_hit_witness :
  @ListFirewalls demo fresh = (Ok (Some demoFirewalls), listedFirewalls) /\
  @FindFirewall demo "web" fresh =
    (Fail (multipleMatches "web"), listedFirewalls).
Proof.
  split; [reflexivity|].
  exact (proj1 (@FindFirewall_any_second_hit demo "web" fresh listedFirewalls
                  (Some demoFirewalls) eq_refl)).
Defined.

(** ** The empty search string *)

Lemma filter_all {A : Type} (p : A -> bool) (l : list A) :
  (forall x, p x = true) -> filter p l = l.
Proof.
  intros H. induction l as [|a l IH]; simpl; [reflexivity|].
  now rewrite H, IH.
Qed.

Lemma volumeContains_empty (v : Volume) : volumeContains "" v = true.
Proof. unfold volumeContains. now rewrite Contains_empty. Qed.

Lemma firewallContains_empty (f : Firewall) : firewallContains "" f = true.
Proof. unfold firewallContains. now rewrite Contains_empty. Qed.

Section EmptySearch.

Context {B : Backend}.

(** C10. Every string contains the empty string, so the empty search hits
    every entry: [FindFirewall] fails with the multiple-matches error on two
    or more firewalls, [FindVolume] fails with [MultipleMatchesError] on two
    or more volumes when no id and no name is empty (the listing is a Go
    slice, its length fits an [int]), and on a listing of one entry each
    returns that entry. *)
Theorem empty_search_hits_every_entry (c cv cf : Client World)
  (volumes : slice Volume) (firewalls : slice Firewall) :
  (forall s, Contains s "" = true)
  /\ (ListFirewalls c = (Ok firewalls, cf) ->
      (forall f, elems firewalls = [f] -> FindFirewall "" c = (Ok f, cf))
      /\ (2 <= length (elems firewalls) ->
          FindFirewall "" c = (Fail (multipleMatches ""), cf)))
  /\ (ListVolumes c = (Ok volumes, cv) ->
      (forall v, elems volumes = [v] -> FindVolume "" c = (Ok v, cv))
      /\ (2 <= length (elems volumes) ->
          (len volumes <= maxInt)%Z ->
          (forall v, In v (elems volumes) ->
                     Volume_ID v <> "" /\ Volume_Name v <> "") ->
          FindVolume "" c =
            (Fail (wrap MultipleMatchesError (multipleMatches "")), cv))).
Proof.
  split; [exact Contains_empty|]. split.
  - intros Hf. rewrite (FindFirewall_listed _ _ _ _ Hf).
    rewrite FindFirewall_resolve_hits,
      (filter_all _ _ firewallContains_empty).
    split.
    + now intros f ->.
    + destruct (elems firewalls) as [|f [|g l]]; simpl; intros H;
        (lia || reflexivity).
  - intros Hv. rewrite (FindVolume_listed _ _ _ _ Hv). split.
    + intros v E.
      destruct ((Volume_Name v =? "") || (Volume_ID v =? "")) eqn:T.
      * apply exact_test_true in T.
        rewrite (FindVolume_resolve_exact "" volumes [] v []);
          [reflexivity | exact E | exact T | intros w []].
      * rewrite FindVolume_resolve_partial;
          [ rewrite E; cbn [filter]; now rewrite volumeContains_empty
          | unfold len; rewrite E; vm_compute; discriminate |].
        rewrite E. intros w [<-|[]] Hw. apply exact_test_true in Hw.
        congruence.
    + intros Htwo Hlen Hnonempty.
      rewrite FindVolume_resolve_partial; [| exact Hlen |].
      * rewrite (filter_all _ _ volumeContains_empty).
        destruct (elems volumes) as [|v [|w l]]; simpl in Htwo;
          (lia || reflexivity).
      * intros w Hw [E|E]; destruct (Hnonempty w Hw); contradiction.
Qed.

End EmptySearch.

Lemma empty_search_hits_every_entry_witness :
  (@ListFirewalls demo fresh = (Ok (Some demoFirewalls), listedFirewalls) /\
   2 <= length demoFirewalls /\
   @FindFirewall demo "" fresh = (Fail (multipleMatches ""), listedFirewalls))
  /\ (@ListVolumes demo fresh = (Ok (Some demoVolumes), listedVolumes) /\
      2 <= length demoVolumes /\
      (len (Some demoVolumes) <= maxInt)%Z /\
      (forall v, In v demoVolumes -> Volume_ID v <> "" /\ Volume_Name v <> "")
      /\ @FindVolume demo "" fresh =
           (Fail (wrap MultipleMatchesError (multipleMatches "")),
            listedVolumes))
  /\ (@ListFirewalls soloService fresh
        = (Ok (Some [firewall "f1" "web"]), listedFirewalls) /\
      @FindFirewall soloService "" fresh
        = (Ok (firewall "f1" "web"), listedFirewalls))
  /\ (@ListVolumes soloService fresh
        = (Ok (Some [volume "v1" "data" "A"]), listedVolumes) /\
      @FindVolume soloService "" fresh
        = (Ok (volume "v1" "data" "A"), listedVolumes)).
Proof.
  assert (2 <= length demoFirewalls) as F2 by (simpl; lia).
  assert (2 <= length demoVolumes) as V2 by (simpl; lia).
  assert (len (Some demoVolumes) <= maxInt)%Z as L by (vm_compute; discriminate).
  assert (forall v, In v demoVolumes ->
                    Volume_ID v <> "" /\ Volume_Name v <> "") as N.
  { intros v Hv. simpl in Hv.
    repeat (destruct Hv as [<-|Hv]; [split; discriminate|]). destruct Hv. }
  pose proof (@empty_search_hits_every_entry demo fresh listedVolumes
                listedFirewalls (Some demoVolumes) (Some demoFirewalls))
    as (_ & Hf & Hv).
  pose proof (@empty_search_hits_every_entry soloService fresh listedVolumes
                listedFirewalls (Some [volume "v1" "data" "A"])
                (Some [firewall "f1" "web"]))
    as (_ & Hf1 & Hv1).
  refine (conj (conj eq_refl (conj F2 _))
            (conj (conj eq_refl (conj V2 (conj L (conj N _))))
               (conj (conj eq_refl _) (conj eq_refl _)))).
  - exact (proj2 (Hf eq_refl) F2).
  - exact (proj2 (Hv eq_refl) V2 L N).
  - exact (proj1 (Hf1 eq_refl) _ eq_refl).
  - exact (proj1 (Hv1 eq_refl) _ eq_refl).
Defined.

(** ** Listings *)

Section Listings.

Context {B : Backend}.

Lemma ListVolumes_decoded (c c' : Client World) (body : string) :
  SendGetRequest "/v2/volumes" c = (Ok body, c') ->
  ListVolumes c =
    (match readVolumes body with
     | JsonArray items => Ok (Some items)
     | JsonNull => Ok nilSlice
     | JsonInvalid err => Fail err
     end, c').
Proof.
  intros H. unfold ListVolumes, bind. rewrite H.
  destruct (readVolumes body); reflexivity.
Qed.

Lemma ListFirewalls_decoded (c c' : Client World) (body : string) :
  SendGetRequest "/v2/firewalls" c = (Ok body, c') ->
  ListFirewalls c =
    (match readFirewalls body with
     | JsonArray items => Ok (Some items)
     | JsonNull => Ok nilSlice
     | JsonInvalid err => Fail err
     end, c').
Proof.
  intros H. unfold ListFirewalls, bind. rewrite H.
  destruct (readFirewalls body); reflexivity.
Qed.

(** Listing the volumes sends one GET request, whatever comes back. *)
Lemma ListVolumes_sent (c c' : Client World) (r : Result (slice Volume)) :
  ListVolumes c = (r, c') ->
  sent c' =
    sent c ++ [ {| method := GET; path := "/v2/volumes"; payload := None |} ].
Proof.
  unfold ListVolumes, bind, SendGetRequest, send.
  destruct (roundTrip _ (remote c)) as [[body|err|] w].
  - destruct (Decode (readVolumes body) make) as [vs [err|]];
      unfold ret; intros [= _ <-]; reflexivity.
  - unfold ret; intros [= _ <-]; reflexivity.
  - unfold ret; intros [= _ <-]; reflexivity.
Qed.

(** C4. The listings return what the decoder leaves in the slice they
    allocated with [make]: when the transport succeeds with a body that is
    the JSON value null, [ListVolumes] and [ListFirewalls] return the nil
    slice without error, not the allocated empty slice. *)
Theorem listings_null_body_is_nil (c cv cf : Client World)
  (volumesBody firewallsBody : string) :
  (SendGetRequest "/v2/volumes" c = (Ok volumesBody, cv) ->
   readVolumes volumesBody = JsonNull ->
   ListVolumes c = (Ok nilSlice, cv))
  /\ (SendGetRequest "/v2/firewalls" c = (Ok firewallsBody, cf) ->
      readFirewalls firewallsBody = JsonNull ->
      ListFirewalls c = (Ok nilSlice, cf))
  /\ @nilSlice Volume <> make
  /\ @nilSlice Firewall <> make.
Proof.
  split; [|split; [|split; discriminate]].
  - intros Hsend Hread.
    rewrite (ListVolumes_decoded _ _ _ Hsend), Hread. reflexivity.
  - intros Hsend Hread.
    rewrite (ListFirewalls_decoded _ _ _ Hsend), Hread. reflexivity.
Qed.

End Listings.

Lemma listings_null_body_is_nil_witness :
  (@SendGetRequest nullService "/v2/volumes" fresh
     = (Ok "null", listedVolumes) /\
   @readVolumes nullService "null" = JsonNull /\
   @ListVolumes nullService fresh = (Ok nilSlice, listedVolumes))
  /\ (@SendGetRequest nullService "/v2/firewalls" fresh
        = (Ok "null", listedFirewalls) /\
      @readFirewalls nullService "null" = JsonNull /\
      @ListFirewalls nullService fresh = (Ok nilSlice, listedFirewalls)).
Proof.
  pose proof (@listings_null_body_is_nil nullService fresh listedVolumes
                listedFirewalls "null" "null") as (Hv & Hf & _).
  exact (conj (conj eq_refl (conj eq_refl (Hv eq_refl eq_refl)))
           (conj eq_refl (conj eq_refl (Hf eq_refl eq_refl)))).
Defined.

(** ** Volumes of a cluster, dangling volumes *)

(** The loop of [ListDanglingVolumes] that collects the cluster ids. *)
Lemma clusterIDs_map (clusters : list KubernetesCluster) (ids : slice string) :
  elems (fold_left
           (fun clusterIDs cluster =>
              append clusterIDs (KubernetesCluster_ID cluster))
           clusters ids)
  = elems ids ++ map KubernetesCluster_ID clusters.
Proof.
  revert ids. induction clusters as [|k l IH]; intros ids; simpl.
  - now rewrite app_nil_r.
  - rewrite IH. unfold append. simpl. now rewrite <- app_assoc.
Qed.

Lemma findString_map (clusters : list KubernetesCluster) (val : string) :
  findString (map KubernetesCluster_ID clusters) val =
    existsb (fun k => KubernetesCluster_ID k =? val) clusters.
Proof.
  rewrite findString_existsb. induction clusters as [|k l IH]; simpl;
    [reflexivity | now rewrite IH].
Qed.

(** What [dangling] decides. *)
Lemma dangling_spec (clusters : list KubernetesCluster) (v : Volume) :
  dangling clusters v = true <->
  Volume_ClusterID v <> "" /\
  forall k, In k clusters -> KubernetesCluster_ID k <> Volume_ClusterID v.
Proof.
  unfold dangling.
  rewrite andb_true_iff, !negb_true_iff, String.eqb_neq.
  apply and_iff_compat_l. split.
  - intros H k Hk E. apply String.eqb_eq in E.
    assert (existsb (fun k => KubernetesCluster_ID k =? Volume_ClusterID v)
              clusters = true) by (apply existsb_exists; eauto).
    congruence.
  - intros H. apply not_true_is_false. intros E.
    apply existsb_exists in E. destruct E as (k & Hk & E).
    apply String.eqb_eq in E. exact (H k Hk E).
Qed.

(** What [belongsTo] decides. *)
Lemma belongsTo_spec (k : KubernetesCluster) (v : Volume) :
  belongsTo k v = true <->
  Volume_ClusterID v <> "" /\ Volume_ClusterID v = KubernetesCluster_ID k.
Proof.
  unfold belongsTo.
  rewrite andb_true_iff, negb_true_iff, String.eqb_neq, String.eqb_eq.
  intuition congruence.
Qed.

Section ClusterVolumes.

Context {B : Backend}.

(** [ListVolumesForCluster] once the cluster and the listing are there. *)
Lemma ListVolumesForCluster_resolved (clusterID : string)
  (c c1 c2 : Client World) (k : KubernetesCluster) (volumes : slice Volume) :
  FindKubernetesCluster clusterID c = (Ok k, c1) ->
  ListVolumes c1 = (Ok volumes, c2) ->
  ListVolumesForCluster clusterID c =
    (Ok match filter (belongsTo k) (elems volumes) with
        | [] => nilSlice
        | kept => Some kept
        end, c2).
Proof.
  intros Hk Hv. unfold ListVolumesForCluster, bind. rewrite Hk, Hv.
  unfold ret. do 2 f_equal.
  rewrite (fold_left_append (belongsTo k)).
  - reflexivity.
  - intros s x. unfold belongsTo.
    destruct (Volume_ClusterID x =? ""); simpl; [reflexivity|].
    destruct (KubernetesCluster_ID k =? Volume_ClusterID x); reflexivity.
Qed.

(** C5. [ListDanglingVolumes] returns, in listing order, exactly the volumes
    whose cluster id is not empty and is the id of no listed cluster; beyond
    the requests of the cluster listing it sends one GET request, the
    listing of the volumes, and nothing that changes the service. *)
Theorem ListDanglingVolumes_exact (c c1 c2 : Client World)
  (clusters : PaginatedKubernetesClusters) (volumes : slice Volume) :
  ListKubernetesClusters c = (Ok clusters, c1) ->
  ListVolumes c1 = (Ok volumes, c2) ->
  let found := filter (dangling (elems (Items clusters))) (elems volumes) in
  ListDanglingVolumes c = (Ok (Some found), c2)
  /\ (forall v,
        In v found <->
        In v (elems volumes) /\ Volume_ClusterID v <> "" /\
        forall k, In k (elems (Items clusters)) ->
                  KubernetesCluster_ID k <> Volume_ClusterID v)
  /\ sent c2 =
       sent c1 ++ [ {| method := GET; path := "/v2/volumes"; payload := None |} ].
Proof.
  intros Hk Hv found. split; [|split].
  - unfold ListDanglingVolumes, bind. rewrite Hk, Hv. unfold ret.
    do 2 f_equal.
    rewrite (fold_left_append (dangling (elems (Items clusters)))).
    + subst found. simpl.
      destruct (filter _ (elems volumes)); reflexivity.
    + intros s x. unfold dangling. rewrite clusterIDs_map.
      change (elems (@nilSlice string)) with (@nil string). cbn [app].
      rewrite findString_map. destruct (Volume_ClusterID x =? ""); simpl; [reflexivity|].
      destruct (existsb _ _); reflexivity.
  - intros v. subst found. rewrite filter_In, dangling_spec. reflexivity.
  - exact (ListVolumes_sent _ _ _ Hv).
Qed.

(** C6. Whatever error the cluster lookup fails with, NotFoundError in the
    taxonomy of the spec, comes back as the error of
    [ListVolumesForCluster], before any volume is requested; when the
    lookup resolves a cluster, whose id is then not empty, the result holds
    exactly the volumes whose cluster id is the id of that cluster, in the
    order of the volume listing. *)
Theorem ListVolumesForCluster_filters (clusterID : string)
  (c c1 : Client World) (resolved : Result KubernetesCluster) :
  FindKubernetesCluster clusterID c = (resolved, c1) ->
  match resolved with
  | Fail err => ListVolumesForCluster clusterID c = (Fail err, c1)
  | Panic => ListVolumesForCluster clusterID c = (Panic, c1)
  | Ok k =>
      KubernetesCluster_ID k <> "" ->
      forall volumes c2,
        ListVolumes c1 = (Ok volumes, c2) ->
        exists vols,
          ListVolumesForCluster clusterID c = (Ok vols, c2) /\
          elems vols =
            filter (fun v => Volume_ClusterID v =? KubernetesCluster_ID k)
              (elems volumes) /\
          forall v, In v (elems vols) <->
                    In v (elems volumes) /\
                    Volume_ClusterID v = KubernetesCluster_ID k
  end.
Proof.
  intros Hk. destruct resolved as [k|err|].
  - intros Hid volumes c2 Hv.
    rewrite (ListVolumesForCluster_resolved _ _ _ _ _ _ Hk Hv).
    eexists. split; [reflexivity|].
    assert (filter (belongsTo k) (elems volumes) =
            filter (fun v => Volume_ClusterID v =? KubernetesCluster_ID k)
              (elems volumes)) as Hsame.
    { apply filter_ext. intros v. unfold belongsTo.
      rewrite (String.eqb_sym (KubernetesCluster_ID k)).
      destruct (String.eqb_spec (Volume_ClusterID v)
                  (KubernetesCluster_ID k)) as [E|E];
        [|apply andb_false_r].
      rewrite E. apply String.eqb_neq in Hid. now rewrite Hid. }
    assert (elems match filter (belongsTo k) (elems volumes) with
                  | [] => nilSlice
                  | kept => Some kept
                  end
            = filter (fun v => Volume_ClusterID v =? KubernetesCluster_ID k)
                (elems volumes)) as E
      by (rewrite <- Hsame; destruct (filter _ _); reflexivity).
    split; [exact E|].
    intros v. rewrite E, filter_In, String.eqb_eq. reflexivity.
  - unfold ListVolumesForCluster, bind. now rewrite Hk.
  - unfold ListVolumesForCluster, bind. now rewrite Hk.
Qed.

(** C9. When the cluster resolves and no listed volume has its id as cluster
    id, [ListVolumesForCluster] returns the nil slice; [ListVolumes] and
    [ListFirewalls] return an allocated empty slice, which is not nil, for
    a listing without elements. *)
Theorem ListVolumesForCluster_nil (clusterID : string)
  (c c1 c2 : Client World) (k : KubernetesCluster) (volumes : slice Volume)
  (cv cv' cf cf' : Client World) (volumesBody firewallsBody : string) :
  (FindKubernetesCluster clusterID c = (Ok k, c1) ->
   ListVolumes c1 = (Ok volumes, c2) ->
   (forall v, In v (elems volumes) ->
              Volume_ClusterID v <> KubernetesCluster_ID k) ->
   ListVolumesForCluster clusterID c = (Ok nilSlice, c2))
  /\ (SendGetRequest "/v2/volumes" cv = (Ok volumesBody, cv') ->
      readVolumes volumesBody = JsonArray [] ->
      ListVolumes cv = (Ok make, cv'))
  /\ (SendGetRequest "/v2/firewalls" cf = (Ok firewallsBody, cf') ->
      readFirewalls firewallsBody = JsonArray [] ->
      ListFirewalls cf = (Ok make, cf'))
  /\ @make Volume <> nilSlice
  /\ @make Firewall <> nilSlice.
Proof.
  split; [|split; [|split; [|split; discriminate]]].
  - intros Hk Hv Hnone.
    rewrite (ListVolumesForCluster_resolved _ _ _ _ _ _ Hk Hv).
    assert (filter (belongsTo k) (elems volumes) = []) as ->; [|reflexivity].
    apply filter_nil_iff. intros v Hin. apply not_true_is_false. intros E.
    apply belongsTo_spec in E. exact (Hnone v Hin (proj2 E)).
  - intros Hsend Hread.
    rewrite (ListVolumes_decoded _ _ _ Hsend), Hread. reflexivity.
  - intros Hsend Hread.
    rewrite (ListFirewalls_decoded _ _ _ Hsend), Hread. reflexivity.
Qed.

End ClusterVolumes.

Lemma ListDanglingVolumes_exact_witness :
  @ListKubernetesClusters demo fresh
    = (Ok {| Items := Some demoClusters |}, fresh) /\
  @ListVolumes demo fresh = (Ok (Some demoVolumes), listedVolumes) /\
  @ListDanglingVolumes demo fresh
    = (Ok (Some [volume "v2" "data-backup" "C"]), listedVolumes).
Proof.
  refine (conj eq_refl (conj eq_refl _)).
  exact (proj1 (@ListDanglingVolumes_exact demo fresh fresh listedVolumes
                  {| Items := Some demoClusters |} (Some demoVolumes)
                  eq_refl eq_refl)).
Defined.

Lemma ListVolumesForCluster_filters_witness :
  @FindKubernetesCluster demo "A" fresh = (Ok (cluster "A" "alpha"), fresh) /\
  KubernetesCluster_ID (cluster "A" "alpha") <> "" /\
  @ListVolumes demo fresh = (Ok (Some demoVolumes), listedVolumes) /\
  exists vols,
    @ListVolumesForCluster demo "A" fresh = (Ok vols, listedVolumes) /\
    elems vols = [volume "v1" "data" "A"].
Proof.
  assert (KubernetesCluster_ID (cluster "A" "alpha") <> "") as Hid
    by discriminate.
  refine (conj eq_refl (conj Hid (conj eq_refl _))).
  destruct (@ListVolumesForCluster_filters demo "A" fresh fresh
              (Ok (cluster "A" "alpha")) eq_refl Hid
              (Some demoVolumes) listedVolumes eq_refl)
    as (vols & Hrun & Helems & _).
  exists vols. split; [exact Hrun | exact Helems].
Defined.

Lemma ListVolumesForCluster_nil_witness :
  (@FindKubernetesCluster demo "B" fresh = (Ok (cluster "B" "beta"), fresh) /\
   @ListVolumes demo fresh = (Ok (Some demoVolumes), listedVolumes) /\
   (forall v, In v demoVolumes -> Volume_ClusterID v <> "B") /\
   @ListVolumesForCluster demo "B" fresh = (Ok nilSlice, listedVolumes))
  /\ (@SendGetRequest bareService "/v2/volumes" fresh
        = (Ok "[]", listedVolumes) /\
      @readVolumes bareService "[]" = JsonArray [] /\
      @ListVolumes bareService fresh = (Ok make, listedVolumes))
  /\ (@SendGetRequest bareService "/v2/firewalls" fresh
        = (Ok "[]", listedFirewalls) /\
      @readFirewalls bareService "[]" = JsonArray [] /\
      @ListFirewalls bareService fresh = (Ok make, listedFirewalls))
  /\ @ListVolumesForCluster bareService "B" fresh
       = (Ok nilSlice, listedVolumes).
Proof.
  assert (forall v, In v demoVolumes -> Volume_ClusterID v <> "B") as Hnone.
  { intros v Hv. simpl in Hv.
    repeat (destruct Hv as [<-|Hv]; [discriminate|]). destruct Hv. }
  pose proof (@ListVolumesForCluster_nil demo "B" fresh fresh listedVolumes
                (cluster "B" "beta") (Some demoVolumes)
                fresh listedVolumes fresh listedFirewalls "[]" "[]")
    as (Hnil & _).
  pose proof (@ListVolumesForCluster_nil bareService "B" fresh fresh
                listedVolumes (cluster "B" "beta") (Some [])
                fresh listedVolumes fresh listedFirewalls "[]" "[]")
    as (Hnil' & Hv & Hf & _).
  refine (conj (conj eq_refl (conj eq_refl (conj Hnone _)))
            (conj (conj eq_refl (conj eq_refl _))
               (conj (conj eq_refl (conj eq_refl _)) _))).
  - exact (Hnil eq_refl eq_refl Hnone).
  - exact (Hv eq_refl eq_refl).
  - exact (Hf eq_refl eq_refl).
  - exact (Hnil' eq_refl eq_refl (fun v (H : In v []) => match H with end)).
Defined.

(** ** Requests *)

Section Requests.

Context {B : Backend}.

(** C7. With an empty firewall id, [NewFirewallRule] fails with its
    validation error and the client is as before: no request was sent. *)
Theorem NewFirewallRule_empty_firewall_id (r : FirewallRuleConfig)
  (c : Client World) :
  FirewallRuleConfig_FirewallID r = "" ->
  NewFirewallRule r c = (Fail (errorString "the firewall ID is empty"), c).
Proof.
  intros E. unfold NewFirewallRule. rewrite E. reflexivity.
Qed.

(** C8. [DeleteVolumeAndAllSnapshot] sends exactly one request, a DELETE of
    /v2/volumes/{id}?delete_snapshot=true; [DeleteVolume] sends a DELETE of
    /v2/volumes/{id}, which is another path; both hand the response body to
    [DecodeSimpleResponse] and return what it returns. *)
Theorem DeleteVolumeAndAllSnapshot_one_request (id : string)
  (c : Client World) :
  let cascade :=
    {| method := DELETE;
       path := "/v2/volumes/" ++ id ++ "?delete_snapshot=true";
       payload := None |} in
  let plain :=
    {| method := DELETE; path := "/v2/volumes/" ++ id; payload := None |} in
  let decoded (resp : Result string) : Result SimpleResponse :=
    match resp with
    | Ok body => DecodeSimpleResponse body
    | Fail err => Fail (decodeError err)
    | Panic => Panic
    end in
  sent (snd (DeleteVolumeAndAllSnapshot id c)) = sent c ++ [cascade]
  /\ sent (snd (DeleteVolume id c)) = sent c ++ [plain]
  /\ path cascade <> path plain
  /\ fst (DeleteVolumeAndAllSnapshot id c)
       = decoded (fst (roundTrip cascade (remote c)))
  /\ fst (DeleteVolume id c) = decoded (fst (roundTrip plain (remote c))).
Proof.
  intros cascade plain decoded.
  unfold DeleteVolumeAndAllSnapshot, DeleteVolume, bind, SendDeleteRequest,
    send.
  fold cascade. fold plain.
  destruct (roundTrip cascade (remote c)) as [[body|err|] w];
    destruct (roundTrip plain (remote c)) as [[body'|err'|] w'];
    (repeat split; try reflexivity;
     cbn [path]; apply app_suffix_neq; discriminate).
Qed.

End Requests.

Lemma NewFirewallRule_empty_firewall_id_witness :
  FirewallRuleConfig_FirewallID demoRule = "" /\
  @NewFirewallRule demo demoRule fresh
    = (Fail (errorString "the firewall ID is empty"), fresh).
Proof.
  split; [reflexivity|].
  exact (@NewFirewallRule_empty_firewall_id demo demoRule fresh eq_refl).
Defined.

(** * Further properties *)

(** ** Membership and soundness of the lookups *)

(** X1. [findString] decides membership: it answers true exactly when the
    value is one of the items, and false on a slice without items. *)
Theorem findString_decides_membership (items : list string) (val : string) :
  (findString items val = true <-> In val items)
  /\ (findString items val = false <-> ~ In val items)
  /\ findString (elems nilSlice) val = false.
Proof.
  assert (findString items val = true <-> In val items) as H.
  { induction items as [|item rest IH]; simpl.
    - split; [discriminate | intros []].
    - destruct (item =? val) eqn:E.
      + apply String.eqb_eq in E. split; auto.
      + apply String.eqb_neq in E. rewrite IH. split; [auto|].
        intros [E'|Hin]; [contradiction | assumption]. }
  split; [exact H|]. split; [|reflexivity].
  rewrite <- H. destruct (findString items val); split; congruence.
Qed.

(** Whatever the scan of [FindVolume] holds when it reports a match is a
    volume of the listing that contains the search string. *)
Lemma FindVolume_body_sound (search : string) (listing l : list Volume) vars :
  (forall x, In x l -> In x listing) ->
  (exactMatch vars = true \/ partialMatchesCount vars = 1%Z ->
   In (result vars) listing /\ volumeContains search (result vars) = true) ->
  let vars' := fold_left (FindVolume_body search) l vars in
  exactMatch vars' = true \/ partialMatchesCount vars' = 1%Z ->
  In (result vars') listing /\ volumeContains search (result vars') = true.
Proof.
  revert vars. induction l as [|value l IH]; intros vars Hsub Hinv;
    [exact Hinv|].
  cbn [fold_left]. apply IH; [intros x Hx; apply Hsub; now right|].
  assert (In value listing) as Hin by (apply Hsub; now left).
  unfold FindVolume_body.
  destruct ((Volume_Name value =? search) || (Volume_ID value =? search))
    eqn:T.
  - intros _. cbn [result]. split; [assumption|].
    apply volumeIs_Contains. now apply exact_test_true.
  - fold (volumeContains search value).
    destruct (volumeContains search value) eqn:P; [|exact Hinv].
    destruct (exactMatch vars) eqn:E; cbn [negb].
    + rewrite E. exact Hinv.
    + intros _. cbn [result]. auto.
Qed.

Section LookupSoundness.

Context {B : Backend}.

(** X2. Whenever [FindVolume] succeeds, the volume it returns is one of the
    listing, and its name or its id contains the search string; this holds
    for listings of any length. *)
Theorem FindVolume_sound (search : string) (c c' c'' : Client World)
  (volumes : slice Volume) (v : Volume) :
  ListVolumes c = (Ok volumes, c') ->
  FindVolume search c = (Ok v, c'') ->
  In v (elems volumes) /\ volumeContains search v = true.
Proof.
  intros Hlist Hfind. rewrite (FindVolume_listed _ _ _ _ Hlist) in Hfind.
  injection Hfind as Hres _. unfold FindVolume_resolve in Hres.
  pose proof (FindVolume_body_sound search (elems volumes) (elems volumes)
                {| exactMatch := false; partialMatchesCount := 0;
                   result := zeroVolume |}
                (fun x Hx => Hx)) as Hsound.
  fold (FindVolume_loop search (elems volumes)) in Hsound.
  cbv zeta in Hsound.
  destruct (exactMatch (FindVolume_loop search (elems volumes))
            || (partialMatchesCount
                  (FindVolume_loop search (elems volumes)) =? 1)%Z) eqn:T.
  - injection Hres as <-. apply Hsound.
    + cbn. intros [H|H]; discriminate.
    + apply orb_true_iff in T. destruct T as [T|T]; [now left|].
      right. now apply Z.eqb_eq.
  - destruct (_ >? 1)%Z; discriminate.
Qed.

(** X3. Indexing [firewalls[found]] never leaves the slice: when the listing
    is there [FindFirewall] does not panic, and a firewall it returns is the
    only one of the listing whose id or name contains the search string. *)
Theorem FindFirewall_in_range (search : string) (c c' : Client World)
  (firewalls : slice Firewall) :
  ListFirewalls c = (Ok firewalls, c') ->
  fst (FindFirewall search c) <> Panic
  /\ forall f, fst (FindFirewall search c) = Ok f ->
       In f (elems firewalls) /\ firewallContains search f = true /\
       filter (firewallContains search) (elems firewalls) = [f].
Proof.
  intros Hlist. rewrite (FindFirewall_listed _ _ _ _ Hlist).
  cbn [fst]. rewrite FindFirewall_resolve_hits.
  destruct (filter (firewallContains search) (elems firewalls))
    as [|f [|g hits]] eqn:F.
  - split; [discriminate | intros f; discriminate].
  - split; [discriminate|]. intros f' [= <-].
    assert (In f (filter (firewallContains search) (elems firewalls))) as Hin
      by (rewrite F; now left).
    apply filter_In in Hin. destruct Hin. auto.
  - split; [discriminate | intros f'; discriminate].
Qed.

Lemma ListFirewalls_sent (c c' : Client World) (r : Result (slice Firewall)) :
  ListFirewalls c = (r, c') ->
  sent c' =
    sent c ++ [ {| method := GET; path := "/v2/firewalls"; payload := None |} ].
Proof.
  unfold ListFirewalls, bind, SendGetRequest, send.
  destruct (roundTrip _ (remote c)) as [[body|err|] w].
  - destruct (Decode (readFirewalls body) make) as [fs [err|]];
      unfold ret; intros [= _ <-]; reflexivity.
  - unfold ret; intros [= _ <-]; reflexivity.
  - unfold ret; intros [= _ <-]; reflexivity.
Qed.

(** X4. A lookup is one round trip: whatever the service answers and
    whatever the lookup returns, [FindVolume] has sent exactly one request,
    GET /v2/volumes, and [FindFirewall] exactly one, GET /v2/firewalls. *)
Theorem lookups_send_one_GET (search : string) (c : Client World) :
  sent (snd (FindVolume search c)) =
    sent c ++ [ {| method := GET; path := "/v2/volumes"; payload := None |} ]
  /\ sent (snd (FindFirewall search c)) =
    sent c ++ [ {| method := GET; path := "/v2/firewalls"; payload := None |} ].
Proof.
  split.
  - unfold FindVolume, bind.
    destruct (ListVolumes c) as [r c'] eqn:E.
    apply ListVolumes_sent in E. destruct r; exact E.
  - unfold FindFirewall, bind.
    destruct (ListFirewalls c) as [r c'] eqn:E.
    apply ListFirewalls_sent in E. destruct r; exact E.
Qed.

End LookupSoundness.

Lemma FindVolume_sound_witness :
  @ListVolumes demo fresh = (Ok (Some demoVolumes), listedVolumes) /\
  @FindVolume demo "log" fresh = (Ok (volume "v3" "logs" ""), listedVolumes) /\
  In (volume "v3" "logs" "") demoVolumes /\
  volumeContains "log" (volume "v3" "logs" "") = true.
Proof.
  refine (conj eq_refl (conj eq_refl _)).
  exact (@FindVolume_sound demo "log" fresh listedVolumes listedVolumes
           (Some demoVolumes) (volume "v3" "logs" "") eq_refl eq_refl).
Defined.

Lemma FindFirewall_in_range_witness :
  @ListFirewalls demo fresh = (Ok (Some demoFirewalls), listedFirewalls) /\
  fst (@FindFirewall demo "db" fresh) <> Panic.
Proof.
  refine (conj eq_refl _).
  exact (proj1 (@FindFirewall_in_range demo "db" fresh listedFirewalls
                  (Some demoFirewalls) eq_refl)).
Defined.

(** ** Failures *)

Section Failures.

Context {B : Backend}.

Lemma ListVolumes_failed (c c' : Client World) (err : Error) :
  SendGetRequest "/v2/volumes" c = (Fail err, c') ->
  ListVolumes c = (Fail (decodeError err), c').
Proof. intros H. unfold ListVolumes, bind. now rewrite H. Qed.

(** X5. A transport error of the volume listing is translated twice: the
    listing returns [decodeError err], and [FindVolume] returns
    [decodeError (decodeError err)], as do [ListVolumesForCluster] once its
    cluster lookup has resolved and [ListDanglingVolumes] once its cluster
    listing has succeeded. *)
Theorem volume_transport_error_decoded_twice (search : string)
  (c c' : Client World) (err : Error) :
  SendGetRequest "/v2/volumes" c = (Fail err, c') ->
  ListVolumes c = (Fail (decodeError err), c')
  /\ FindVolume search c = (Fail (decodeError (decodeError err)), c')
  /\ (forall clusterID c0 k,
        FindKubernetesCluster clusterID c0 = (Ok k, c) ->
        ListVolumesForCluster clusterID c0
          = (Fail (decodeError (decodeError err)), c'))
  /\ (forall d0 clusters,
        ListKubernetesClusters d0 = (Ok clusters, c) ->
        ListDanglingVolumes d0 = (Fail (decodeError (decodeError err)), c')).
Proof.
  intros Hsend. pose proof (ListVolumes_failed _ _ _ Hsend) as Hv.
  split; [exact Hv|]. split; [|split].
  - unfold FindVolume, bind. now rewrite Hv.
  - intros clusterID c0 k Hk.
    unfold ListVolumesForCluster, bind. now rewrite Hk, Hv.
  - intros d0 clusters Hl.
    unfold ListDanglingVolumes, bind. now rewrite Hl, Hv.
Qed.

(** X6. A body that does not decode is reported by the volume listing with
    the decoder's error as it is, and by [FindVolume] with that error
    translated once by [decodeError]. *)
Theorem volume_decode_error_decoded_once (search : string)
  (c c' : Client World) (body : string) (err : Error) :
  SendGetRequest "/v2/volumes" c = (Ok body, c') ->
  readVolumes body = JsonInvalid err ->
  ListVolumes c = (Fail err, c')
  /\ FindVolume search c = (Fail (decodeError err), c').
Proof.
  intros Hsend Hread.
  assert (ListVolumes c = (Fail err, c')) as Hv
    by (rewrite (ListVolumes_decoded _ _ _ Hsend), Hread; reflexivity).
  split; [exact Hv|]. unfold FindVolume, bind. now rewrite Hv.
Qed.

(** X7. The firewall operations translate nothing: a transport error and a
    decoder's error of the firewall listing come back from [ListFirewalls]
    and from [FindFirewall] as they are. *)
Theorem firewall_errors_unchanged (search : string) (c c' : Client World)
  (resp : Result string) (err : Error) :
  SendGetRequest "/v2/firewalls" c = (resp, c') ->
  resp = Fail err
  \/ (exists body, resp = Ok body /\ readFirewalls body = JsonInvalid err) ->
  ListFirewalls c = (Fail err, c')
  /\ FindFirewall search c = (Fail err, c').
Proof.
  intros Hsend Hfail.
  assert (ListFirewalls c = (Fail err, c')) as Hl.
  { destruct Hfail as [->|(body & -> & Hread)].
    - unfold ListFirewalls, bind. now rewrite Hsend.
    - rewrite (ListFirewalls_decoded _ _ _ Hsend), Hread. reflexivity. }
  split; [exact Hl|]. unfold FindFirewall, bind. now rewrite Hl.
Qed.

(** X8. When the cluster listing fails, [ListDanglingVolumes] returns its
    error translated by [decodeError] and stops: the client is as the
    cluster listing left it, no volume has been requested. *)
Theorem ListDanglingVolumes_cluster_failure (c c1 : Client World)
  (err : Error) :
  ListKubernetesClusters c = (Fail err, c1) ->
  ListDanglingVolumes c = (Fail (decodeError err), c1).
Proof.
  intros H. unfold ListDanglingVolumes, bind. now rewrite H.
Qed.

End Failures.

Lemma volume_transport_error_decoded_twice_witness :
  @SendGetRequest downService "/v2/volumes" fresh
    = (Fail unreachable, listedVolumes) /\
  @ListVolumes downService fresh
    = (Fail (errorString "decoded: connection refused"), listedVolumes) /\
  @FindVolume downService "data" fresh
    = (Fail (errorString "decoded: decoded: connection refused"),
       listedVolumes) /\
  @ListVolumesForCluster downService "A" fresh
    = (Fail (errorString "decoded: decoded: connection refused"),
       listedVolumes) /\
  @ListDanglingVolumes downService fresh
    = (Fail (errorString "decoded: decoded: connection refused"),
       listedVolumes).
Proof.
  destruct (@volume_transport_error_decoded_twice downService "data" fresh
              listedVolumes unreachable eq_refl) as (Hl & Hf & Hc & Hd).
  refine (conj eq_refl (conj Hl (conj Hf (conj _ _)))).
  - exact (Hc "A" fresh (cluster "A" "alpha") eq_refl).
  - exact (Hd fresh {| Items := Some demoClusters |} eq_refl).
Defined.

Lemma volume_decode_error_decoded_once_witness :
  @SendGetRequest garbledService "/v2/volumes" fresh
    = (Ok "<html>", listedVolumes) /\
  @readVolumes garbledService "<html>" = JsonInvalid garbled /\
  @ListVolumes garbledService fresh = (Fail garbled, listedVolumes) /\
  @FindVolume garbledService "data" fresh
    = (Fail (errorString "decoded: invalid character '<'"), listedVolumes).
Proof.
  refine (conj eq_refl (conj eq_refl _)).
  exact (@volume_decode_error_decoded_once garbledService "data" fresh
           listedVolumes "<html>" garbled eq_refl eq_refl).
Defined.

Lemma firewall_errors_unchanged_witness :
  @SendGetRequest downService "/v2/firewalls" fresh
    = (Fail unreachable, listedFirewalls) /\
  @ListFirewalls downService fresh = (Fail unreachable, listedFirewalls) /\
  @FindFirewall downService "web" fresh = (Fail unreachable, listedFirewalls).
Proof.
  refine (conj eq_refl _).
  exact (@firewall_errors_unchanged downService "web" fresh listedFirewalls
           (Fail unreachable) unreachable eq_refl (or_introl eq_refl)).
Defined.

Lemma ListDanglingVolumes_cluster_failure_witness :
  @ListKubernetesClusters clusterlessService fresh
    = (Fail unreachable, fresh) /\
  @ListDanglingVolumes clusterlessService fresh
    = (Fail (errorString "decoded: connection refused"), fresh).
Proof.
  refine (conj eq_refl _).
  exact (@ListDanglingVolumes_cluster_failure clusterlessService fresh fresh
           unreachable eq_refl).
Defined.

(** ** Cluster volumes against dangling volumes *)

Section Partition.

Context {B : Backend}.

(** [ListDanglingVolumes] once both listings are there. *)
Lemma ListDanglingVolumes_resolved (c c1 c2 : Client World)
  (clusters : PaginatedKubernetesClusters) (volumes : slice Volume) :
  ListKubernetesClusters c = (Ok clusters, c1) ->
  ListVolumes c1 = (Ok volumes, c2) ->
  ListDanglingVolumes c =
    (Ok (Some (filter (dangling (elems (Items clusters))) (elems volumes))),
     c2).
Proof.
  intros Hk Hv. unfold ListDanglingVolumes, bind. rewrite Hk, Hv.
  unfold ret. do 2 f_equal.
  rewrite (fold_left_append (dangling (elems (Items clusters)))).
  - simpl. destruct (filter _ (elems volumes)); reflexivity.
  - intros s x. unfold dangling. rewrite clusterIDs_map.
    change (elems (@nilSlice string)) with (@nil string). cbn [app].
    rewrite findString_map. destruct (Volume_ClusterID x =? ""); simpl;
      [reflexivity|].
    destruct (existsb _ _); reflexivity.
Qed.

(** X9. On one and the same volume listing, a volume that
    [ListVolumesForCluster] returns for a cluster of the cluster listing is
    never among the volumes [ListDanglingVolumes] returns. *)
Theorem cluster_volumes_are_not_dangling (clusterID : string)
  (c c1 c2 d d1 d2 : Client World) (k : KubernetesCluster)
  (clusters : PaginatedKubernetesClusters) (volumes : slice Volume) :
  FindKubernetesCluster clusterID c = (Ok k, c1) ->
  ListVolumes c1 = (Ok volumes, c2) ->
  ListKubernetesClusters d = (Ok clusters, d1) ->
  ListVolumes d1 = (Ok volumes, d2) ->
  In k (elems (Items clusters)) ->
  exists vols danglingVolumes,
    ListVolumesForCluster clusterID c = (Ok vols, c2) /\
    ListDanglingVolumes d = (Ok danglingVolumes, d2) /\
    forall v, In v (elems vols) -> ~ In v (elems danglingVolumes).
Proof.
  intros Hk Hv Hl Hv' Hin.
  rewrite (ListVolumesForCluster_resolved _ _ _ _ _ _ Hk Hv).
  rewrite (ListDanglingVolumes_resolved _ _ _ _ _ Hl Hv').
  do 2 eexists. split; [reflexivity|]. split; [reflexivity|].
  intros v Hvol Hdang. cbn [elems] in Hdang.
  assert (In v (filter (belongsTo k) (elems volumes))) as Hb
    by (destruct (filter (belongsTo k) (elems volumes)); [destruct Hvol
                                                         | exact Hvol]).
  apply filter_In in Hb. destruct Hb as [_ Hb].
  apply filter_In in Hdang. destruct Hdang as [_ Hd].
  apply belongsTo_spec in Hb. apply dangling_spec in Hd.
  destruct Hb as [_ Hb]. destruct Hd as [_ Hd].
  exact (Hd k Hin (eq_sym Hb)).
Qed.

(** X10. The success result of [ListVolumesForCluster] is the nil slice
    exactly when no listed volume has a non-empty cluster id equal to the
    id of the resolved cluster; it is never an allocated slice without
    elements. *)
Theorem ListVolumesForCluster_nil_iff (clusterID : string)
  (c c1 c2 c3 : Client World) (k : KubernetesCluster)
  (volumes vols : slice Volume) :
  FindKubernetesCluster clusterID c = (Ok k, c1) ->
  ListVolumes c1 = (Ok volumes, c2) ->
  ListVolumesForCluster clusterID c = (Ok vols, c3) ->
  (vols = nilSlice <->
   forall v, In v (elems volumes) ->
             Volume_ClusterID v = "" \/
             Volume_ClusterID v <> KubernetesCluster_ID k)
  /\ vols <> make.
Proof.
  intros Hk Hv Hrun.
  rewrite (ListVolumesForCluster_resolved _ _ _ _ _ _ Hk Hv) in Hrun.
  injection Hrun as <- _.
  assert (filter (belongsTo k) (elems volumes) = [] <->
          forall v, In v (elems volumes) ->
                    Volume_ClusterID v = "" \/
                    Volume_ClusterID v <> KubernetesCluster_ID k) as Hnone.
  { rewrite filter_nil_iff. split; intros H v Hin.
    - specialize (H v Hin).
      destruct (String.eqb_spec (Volume_ClusterID v) ""); [now left|].
      right. intros E. assert (belongsTo k v = true)
        by (apply belongsTo_spec; auto). congruence.
    - apply not_true_is_false. intros Hb. apply belongsTo_spec in Hb.
      destruct Hb as [Hne He]. destruct (H v Hin); contradiction. }
  rewrite <- Hnone.
  destruct (filter (belongsTo k) (elems volumes)); split;
    try discriminate; split; (reflexivity || discriminate).
Qed.

End Partition.

Lemma cluster_volumes_are_not_dangling_witness :
  @FindKubernetesCluster demo "A" fresh = (Ok (cluster "A" "alpha"), fresh) /\
  @ListVolumes demo fresh = (Ok (Some demoVolumes), listedVolumes) /\
  @ListKubernetesClusters demo fresh
    = (Ok {| Items := Some demoClusters |}, fresh) /\
  In (cluster "A" "alpha") demoClusters /\
  exists vols danglingVolumes,
    @ListVolumesForCluster demo "A" fresh = (Ok vols, listedVolumes) /\
    @ListDanglingVolumes demo fresh = (Ok danglingVolumes, listedVolumes) /\
    forall v, In v (elems vols) -> ~ In v (elems danglingVolumes).
Proof.
  assert (In (cluster "A" "alpha") demoClusters) as Hin by now left.
  refine (conj eq_refl (conj eq_refl (conj eq_refl (conj Hin _)))).
  exact (@cluster_volumes_are_not_dangling demo "A" fresh fresh listedVolumes
           fresh fresh listedVolumes (cluster "A" "alpha")
           {| Items := Some demoClusters |} (Some demoVolumes)
           eq_refl eq_refl eq_refl eq_refl Hin).
Defined.

Lemma ListVolumesForCluster_nil_iff_witness :
  @FindKubernetesCluster demo "A" fresh = (Ok (cluster "A" "alpha"), fresh) /\
  @ListVolumes demo fresh = (Ok (Some demoVolumes), listedVolumes) /\
  @ListVolumesForCluster demo "A" fresh
    = (Ok (Some [volume "v1" "data" "A"]), listedVolumes) /\
  Some [volume "v1" "data" "A"] <> make.
Proof.
  refine (conj eq_refl (conj eq_refl (conj eq_refl _))).
  exact (proj2 (@ListVolumesForCluster_nil_iff demo "A" fresh fresh
                  listedVolumes listedVolumes (cluster "A" "alpha")
                  (Some demoVolumes) (Some [volume "v1" "data" "A"])
                  eq_refl eq_refl eq_refl)).
Defined.

(** ** Requests of the firewall operations and of the deletions *)

Section FirewallRequests.

Context {B : Backend}.

(** X11. [NewFirewallRule] sends nothing when the firewall id is empty and
    otherwise exactly one request, a POST of the config to
    /v2/firewalls/{firewall_id}/rules; a transport error comes back as it
    is, and a response body is decoded into a zero-valued rule. *)
Theorem NewFirewallRule_request (r : FirewallRuleConfig) (c : Client World) :
  let id := FirewallRuleConfig_FirewallID r in
  let req :=
    {| method := POST;
       path := "/v2/firewalls/" ++ id ++ "/rules";
       payload := Some r |} in
  sent (snd (NewFirewallRule r c)) =
    sent c ++ (if id =? "" then [] else [req])
  /\ fst (NewFirewallRule r c) =
       if id =? "" then Fail (errorString "the firewall ID is empty")
       else match fst (roundTrip req (remote c)) with
            | Fail err => Fail err
            | Panic => Panic
            | Ok body =>
                match readFirewallRule body zeroFirewallRule with
                | (_, Some err) => Fail err
                | (rule, None) => Ok rule
                end
            end.
Proof.
  intros id req. unfold NewFirewallRule. fold id.
  destruct (String.eqb_spec id "") as [E|E].
  - rewrite E. cbn. now rewrite app_nil_r.
  - assert ((Z.of_nat (String.length id) =? 0)%Z = false) as ->.
    { apply Z.eqb_neq. destruct id; [contradiction | cbn [String.length]; lia]. }
    unfold bind, SendPostRequest, send. fold req.
    destruct (roundTrip req (remote c)) as [[body|err|] w]; cbn [fst snd];
      try (split; reflexivity).
    destruct (readFirewallRule body zeroFirewallRule) as [rule [err|]];
      split; reflexivity.
Qed.

(** X12. [DeleteFirewall] and [DeleteFirewallRule] send exactly one DELETE
    request each, on /v2/firewalls/{id} and on
    /v2/firewalls/{id}/rules/{id_rule}, paths that differ for every id and
    rule id; a transport error comes back as it is, without [decodeError],
    and a response body goes through [DecodeSimpleResponse]. *)
Theorem firewall_deletions (id id_rule : string) (c : Client World) :
  let whole :=
    {| method := DELETE; path := "/v2/firewalls/" ++ id; payload := None |} in
  let rule :=
    {| method := DELETE;
       path := "/v2/firewalls/" ++ id ++ "/rules/" ++ id_rule;
       payload := None |} in
  let decoded (resp : Result string) : Result SimpleResponse :=
    match resp with
    | Ok body => DecodeSimpleResponse body
    | Fail err => Fail err
    | Panic => Panic
    end in
  sent (snd (DeleteFirewall id c)) = sent c ++ [whole]
  /\ sent (snd (DeleteFirewallRule id id_rule c)) = sent c ++ [rule]
  /\ path whole <> path rule
  /\ fst (DeleteFirewall id c) = decoded (fst (roundTrip whole (remote c)))
  /\ fst (DeleteFirewallRule id id_rule c)
       = decoded (fst (roundTrip rule (remote c))).
Proof.
  intros whole rule decoded.
  unfold DeleteFirewall, DeleteFirewallRule, bind, SendDeleteRequest, send.
  fold whole. fold rule.
  assert (path whole <> path rule) as Hne.
  { cbn [path whole rule]. intros E. symmetry in E. revert E.
    apply app_suffix_neq. discriminate. }
  destruct (roundTrip whole (remote c)) as [[body|err|] w];
    destruct (roundTrip rule (remote c)) as [[body'|err'|] w'];
    repeat split; try reflexivity; exact Hne.
Qed.

(** X13. Ids go into the path as they are: [DeleteVolume] sends the very
    request of [DeleteVolumeAndAllSnapshot] on a volume exactly when its id
    is that volume's id followed by ?delete_snapshot=true, and
    [DeleteFirewall] the very request of [DeleteFirewallRule] exactly when
    its id is the firewall id followed by /rules/ and the rule id. *)
Theorem ids_are_not_escaped (id id' id_rule : string) (c : Client World) :
  (sent (snd (DeleteVolume id' c))
     = sent (snd (DeleteVolumeAndAllSnapshot id c))
   <-> id' = (id ++ "?delete_snapshot=true")%string)
  /\ (sent (snd (DeleteFirewall id' c))
        = sent (snd (DeleteFirewallRule id id_rule c))
      <-> id' = (id ++ "/rules/" ++ id_rule)%string).
Proof.
  unfold DeleteVolume, DeleteVolumeAndAllSnapshot, DeleteFirewall,
    DeleteFirewallRule, bind, SendDeleteRequest, send.
  split.
  - destruct (roundTrip {| method := DELETE; path := "/v2/volumes/" ++ id';
                           payload := None |} (remote c)) as [[?|?|] ?];
      destruct (roundTrip {| method := DELETE;
                             path := "/v2/volumes/" ++ id
                                     ++ "?delete_snapshot=true";
                             payload := None |} (remote c)) as [[?|?|] ?];
      cbn [snd sent ret]; (split; intros H;
        [ apply app_inv_head in H; injection H as H; exact H
        | now rewrite H ]).
  - destruct (roundTrip {| method := DELETE; path := "/v2/firewalls/" ++ id';
                           payload := None |} (remote c)) as [[?|?|] ?];
      destruct (roundTrip {| method := DELETE;
                             path := "/v2/firewalls/" ++ id ++ "/rules/"
                                     ++ id_rule;
                             payload := None |} (remote c)) as [[?|?|] ?];
      cbn [snd sent ret]; (split; intros H;
        [ apply app_inv_head in H; injection H as H; exact H
        | now rewrite H ]).
Qed.

(** X14. [ListFirewallRules] sends one GET request, on
    /v2/firewalls/{id}/rules, and returns by the response: a transport error
    as it is, the decoder's error for a body that does not decode, the
    decoded rules in response order for a JSON array (an allocated slice
    also without elements), and the nil slice for the JSON value null. *)
Theorem ListFirewallRules_follows_the_body {R : RuleReader} (id : string)
  (c : Client World) :
  let req :=
    {| method := GET;
       path := "/v2/firewalls/" ++ id ++ "/rules";
       payload := None |} in
  sent (snd (ListFirewallRules id c)) = sent c ++ [req]
  /\ fst (ListFirewallRules id c) =
       match fst (roundTrip req (remote c)) with
       | Fail err => Fail err
       | Panic => Panic
       | Ok body =>
           match readFirewallRules body with
           | JsonArray items => Ok (Some items)
           | JsonNull => Ok nilSlice
           | JsonInvalid err => Fail err
           end
       end.
Proof.
  intros req. split.
  - unfold ListFirewallRules, bind, SendGetRequest, send. fold req.
    destruct (roundTrip req (remote c)) as [[body|err|] w]; try reflexivity.
    destruct (readFirewallRules body); reflexivity.
  - unfold ListFirewallRules, bind, SendGetRequest, send. fold req.
    destruct (roundTrip req (remote c)) as [[body|err|] w]; cbn [fst];
      try reflexivity.
    destruct (readFirewallRules body); reflexivity.
Qed.

End FirewallRequests.

(** ** Zero matches *)

Section ZeroMatches.

Context {B : Backend}.

(** X15. On a listing whose length fits an [int], [FindVolume] fails with
    [ZeroMatchesError] exactly when no volume of the listing contains the
    search string in its name or id. *)
Theorem FindVolume_zero_matches_iff (search : string) (c c' : Client World)
  (volumes : slice Volume) :
  ListVolumes c = (Ok volumes, c') ->
  (len volumes <= maxInt)%Z ->
  FindVolume search c
    = (Fail (wrap ZeroMatchesError (zeroMatches search)), c')
  <-> forall v, In v (elems volumes) -> volumeContains search v = false.
Proof.
  intros Hlist Hlen. rewrite (FindVolume_listed _ _ _ _ Hlist).
  rewrite <- filter_nil_iff.
  destruct (existsb
              (fun w => (Volume_Name w =? search) || (Volume_ID w =? search))
              (elems volumes)) eqn:E.
  - apply existsb_exists in E.
    destruct (last_true_split _ _ E) as (before & v & after & Hl & Pv & Ha).
    apply exact_test_true in Pv.
    rewrite (FindVolume_resolve_exact search volumes before v after Hl Pv).
    + split; [discriminate|]. intros F.
      assert (In v (filter (volumeContains search) (elems volumes))) as Hin.
      { apply filter_In. split; [|now apply volumeIs_Contains].
        rewrite Hl. apply in_or_app. right. now left. }
      rewrite F in Hin. destruct Hin.
    + intros w Hw Ew. apply exact_test_true in Ew.
      rewrite (Ha w Hw) in Ew. discriminate.
  - rewrite FindVolume_resolve_partial; [|exact Hlen|].
    + destruct (filter (volumeContains search) (elems volumes))
        as [|v [|v' hits]]; split; (reflexivity || discriminate).
    + intros w Hw Ew. apply exact_test_true in Ew.
      assert (existsb
                (fun w => (Volume_Name w =? search) || (Volume_ID w =? search))
                (elems volumes) = true) by (apply existsb_exists; eauto).
      congruence.
Qed.

End ZeroMatches.

Lemma FindVolume_zero_matches_iff_witness :
  @ListVolumes demo fresh = (Ok (Some demoVolumes), listedVolumes) /\
  (len (Some demoVolumes) <= maxInt)%Z /\
  (forall v, In v demoVolumes -> volumeContains "zzz" v = false) /\
  @FindVolume demo "zzz" fresh
    = (Fail (wrap ZeroMatchesError (zeroMatches "zzz")), listedVolumes).
Proof.
  assert (len (Some demoVolumes) <= maxInt)%Z as L by (vm_compute; discriminate).
  assert (forall v, In v demoVolumes -> volumeContains "zzz" v = false) as N.
  { intros v Hv. simpl in Hv.
    repeat (destruct Hv as [<-|Hv]; [reflexivity|]). destruct Hv. }
  refine (conj eq_refl (conj L (conj N _))).
  exact (proj2 (@FindVolume_zero_matches_iff demo "zzz" fresh listedVolumes
                  (Some demoVolumes) eq_refl L) N).
Defined.
